(** * Household appliance scenarios: the loader, the domain model and the
      command handlers of the controller, embedded from the TypeScript sources.

    Layout of the development:
    - JavaScript strings, numbers, errors, promises and JSON values;
    - [tryCatch] (src/utils.ts);
    - the zod schemas and [ApplianceLoader.loadAppliancesFromFile];
    - the domain classes and the [App] controller with its console world;
    - the properties of the specification, one theorem per property. *)

From Stdlib Require Import List String Ascii Bool Arith ZArith QArith Qround Lia.
From Stdlib Require Import DecimalString.
From Stdlib Require DecimalNat.
Import ListNotations.

Set Warnings "-register-all".

Local Close Scope Q_scope.
Local Open Scope nat_scope.
Local Open Scope string_scope.

(* ================================================================= *)
(** ** JavaScript strings *)

(** A string is a sequence of code units; the model keeps the code units
    below 256, which is what [ascii] holds. *)

Definition nl : string := String (ascii_of_nat 10) EmptyString.

(** White space and line terminators of ECMAScript that fit in one code unit
    below 256: TAB, LF, VT, FF, CR, SP and NBSP. *)
Definition isWhiteSpace (c : ascii) : bool :=
  let n := nat_of_ascii c in
  (((9 <=? n) && (n <=? 13)) || (n =? 32) || (n =? 160))%nat.

Fixpoint trimStart (s : string) : string :=
  match s with
  | EmptyString => EmptyString
  | String c r => if isWhiteSpace c then trimStart r else s
  end.

Fixpoint reverse (s : string) (acc : string) : string :=
  match s with
  | EmptyString => acc
  | String c r => reverse r (String c acc)
  end.

Definition trimEnd (s : string) : string :=
  reverse (trimStart (reverse s EmptyString)) EmptyString.

(** [String.prototype.trim] *)
Definition trim (s : string) : string := trimEnd (trimStart s).

Definition lowerChar (c : ascii) : ascii :=
  let n := nat_of_ascii c in
  if (((65 <=? n) && (n <=? 90))
      || ((192 <=? n) && (n <=? 222) && negb (n =? 215)))%nat
  then ascii_of_nat (n + 32) else c.

(** [String.prototype.toLowerCase] *)
Fixpoint toLowerCase (s : string) : string :=
  match s with
  | EmptyString => EmptyString
  | String c r => String (lowerChar c) (toLowerCase r)
  end.

(** [Array.prototype.join] *)
Fixpoint join (sep : string) (l : list string) : string :=
  match l with
  | [] => ""
  | [x] => x
  | x :: r => x ++ sep ++ join sep r
  end.

(** [s.split(c)[0]]: the part of [s] before the first [c]. *)
Fixpoint splitHead (c : ascii) (s : string) : string :=
  match s with
  | EmptyString => EmptyString
  | String d r => if Ascii.eqb c d then EmptyString else String d (splitHead c r)
  end.

(** A non-negative integer in a template literal is printed in decimal. *)
Definition string_of_nat (n : nat) : string :=
  NilEmpty.string_of_uint (Nat.to_uint n).

(** The value of a digit of [parseInt], for radixes up to 36. *)
Definition digitValue (c : ascii) : option Z :=
  let n := Z.of_nat (nat_of_ascii c) in
  if ((48 <=? n) && (n <=? 57))%Z then Some (n - 48)%Z
  else if ((97 <=? n) && (n <=? 122))%Z then Some (n - 87)%Z
  else if ((65 <=? n) && (n <=? 90))%Z then Some (n - 55)%Z
  else None.

(** The longest prefix of digits of the radix; [None] when it is empty. *)
Fixpoint parseDigits (radix : Z) (s : string) (acc : option Z) : option Z :=
  match s with
  | EmptyString => acc
  | String c r =>
      match digitValue c with
      | Some d =>
          if (d <? radix)%Z
          then parseDigits radix r
                 (Some (radix * match acc with Some a => a | None => 0 end + d)%Z)
          else acc
      | None => acc
      end
  end.

(** [parseInt(s)] without a radix; [None] is NaN. *)
Definition parseInt (s : string) : option Z :=
  let s := trimStart s in
  let '(sign, s) :=
    match s with
    | String "-"%char r => ((-1)%Z, r)
    | String "+"%char r => (1%Z, r)
    | _ => (1%Z, s)
    end in
  let '(radix, s) :=
    match s with
    | String "0"%char (String "x"%char r) => (16%Z, r)
    | String "0"%char (String "X"%char r) => (16%Z, r)
    | _ => (10%Z, s)
    end in
  option_map (Z.mul sign) (parseDigits radix s None).

(** [!x] for a value that is a string or [null]. *)
Definition falsy (x : option string) : bool :=
  match x with
  | None => true
  | Some s => String.eqb s ""
  end.

(* ================================================================= *)
(** ** Errors, promises and JSON values *)

(** An [Error] object: its message and its optional [cause] property. *)
Inductive JsError : Type :=
| mkError (message : string) (cause : option JsError).

Definition message (e : JsError) : string :=
  match e with mkError m _ => m end.

Definition cause (e : JsError) : option JsError :=
  match e with mkError _ c => c end.

(** [new Error(message, options)]: the second argument is an options object,
    and the new error gets a [cause] exactly when [options] has a [cause]
    property, whose value it takes (ECMAScript, InstallErrorCause). *)
Definition new_Error (msg : string) (options : option JsError) : JsError :=
  mkError msg match options with
              | Some o => cause o
              | None => None
              end.

(** What an [await] observes of a promise. *)
Inductive Promise (T E : Type) : Type :=
| Fulfilled (v : T)
| Rejected (e : E)
| Pending.
Arguments Fulfilled {T E} v.
Arguments Rejected {T E} e.
Arguments Pending {T E}.

(** A parsed JSON value. Numbers are the rationals a JSON literal denotes;
    an object lists its own properties in enumeration order. *)
Inductive json : Type :=
| JNull
| JBool (b : bool)
| JNum (q : Q)
| JStr (s : string)
| JArr (items : list json)
| JObj (props : list (string * json)).

(** Property read [o[key]]; [None] is [undefined]. *)
Fixpoint get (props : list (string * json)) (key : string) : option json :=
  match props with
  | [] => None
  | (k, v) :: r => if String.eqb k key then Some v else get r key
  end.

(** [Map.prototype.set] on a [Map<string, object>] kept in insertion order. *)
Fixpoint Map_set (m : list (string * json)) (key : string) (v : json)
  : list (string * json) :=
  match m with
  | [] => [(key, v)]
  | (k, x) :: r => if String.eqb k key then (k, v) :: r
                   else (k, x) :: Map_set r key v
  end.

(* ================================================================= *)
(** ** src/utils.ts *)

(** [Result<T, E>]: an object with an optional [data] and an optional
    [error] property. *)
Record Result (T E : Type) : Type := mkResult {
  data : option T;
  error : option E
}.
Arguments mkResult {T E} data error.
Arguments data {T E} r.
Arguments error {T E} r.

Definition tryCatch {T E : Type} (promise : Promise T E)
  : Promise (Result T E) E :=
  match promise with
  | Fulfilled v => Fulfilled {| data := Some v; error := None |}
  | Rejected e => Fulfilled {| data := None; error := Some e |}
  | Pending => Pending
  end.

(* ================================================================= *)
(** ** The domain model (data) *)

Inductive Region : Type := US | EU | ASIA | NOT_SPECIFIED.

Definition Region_value (r : Region) : string :=
  match r with
  | US => "US"
  | EU => "EU"
  | ASIA => "ASIA"
  | NOT_SPECIFIED => "Not Specified"
  end.

Inductive UsageMode : Type := ALWAYS_ON | ON_DEMAND.

Definition UsageMode_value (u : UsageMode) : string :=
  match u with
  | ALWAYS_ON => "ALWAYS_ON"
  | ON_DEMAND => "ON_DEMAND"
  end.

Record Appliance : Type := mkAppliance {
  a_name : string;
  a_powerConsumption : Q;
  a_embodiedEmissions : Q;
  a_usageMode : UsageMode;
  a_parameters : list (string * json)
}.

(** A valid [Date], as its time value in milliseconds. *)
Definition Date : Type := Z.

Record TimeWindow : Type := mkTimeWindow {
  tw_start : Date;
  tw_end : Date
}.

Record Household : Type := mkHousehold {
  h_region : Region;
  h_timeWindow : TimeWindow;
  h_appliances : list Appliance
}.

Record Scenario : Type := mkScenario {
  s_name : string;
  s_household : Household
}.

Record CO2Contribution : Type := mkCO2Contribution {
  c_appliance : Appliance;
  c_value : Q
}.

(* ================================================================= *)
(** ** zod: issues, results and the schema combinators the loader uses *)

Inductive PathSeg : Type := Idx (i : nat) | Key (k : string).

Inductive IssueCode : Type := invalid_type | too_small | invalid_enum_value.

Record ZodIssue : Type := mkIssue {
  i_code : IssueCode;
  i_path : list PathSeg
}.

(** The two shapes of a [safeParse] result. *)
Inductive SafeParse (A : Type) : Type :=
| success (data : A)
| failure (issues : list ZodIssue).
Arguments success {A} data.
Arguments failure {A} issues.

(** A schema reads a value ([None] is [undefined]) found at a path. *)
Definition Schema (A : Type) : Type :=
  option json -> list PathSeg -> SafeParse A.

Inductive StringCheck : Type := check_trim | check_min (n : nat).

(** The checks of a string schema run in the order they were chained;
    [trim] replaces the value, [min] looks at the value it is given. *)
Fixpoint run_string_checks (cs : list StringCheck) (s : string)
    (path : list PathSeg) : string * list ZodIssue :=
  match cs with
  | [] => (s, [])
  | check_trim :: r => run_string_checks r (trim s) path
  | check_min n :: r =>
      let '(s', iss) := run_string_checks r s path in
      if (String.length s <? n)%nat then (s', mkIssue too_small path :: iss)
      else (s', iss)
  end.

(** [z.string()] followed by its checks. *)
Definition z_string (cs : list StringCheck) : Schema string :=
  fun v path =>
    match v with
    | Some (JStr s) =>
        match run_string_checks cs s path with
        | (s', []) => success s'
        | (_, iss) => failure iss
        end
    | _ => failure [mkIssue invalid_type path]
    end.

(** [z.number().min(m)] *)
Definition z_number_min (m : Q) : Schema Q :=
  fun v path =>
    match v with
    | Some (JNum q) =>
        if Qle_bool m q then success q else failure [mkIssue too_small path]
    | _ => failure [mkIssue invalid_type path]
    end.

(** [z.nativeEnum(UsageMode)]: a string or a number that is no value of the
    enumeration is an invalid enum value, anything else has the wrong type. *)
Definition z_nativeEnum_UsageMode : Schema UsageMode :=
  fun v path =>
    match v with
    | Some (JStr s) =>
        if String.eqb s (UsageMode_value ALWAYS_ON) then success ALWAYS_ON
        else if String.eqb s (UsageMode_value ON_DEMAND) then success ON_DEMAND
        else failure [mkIssue invalid_enum_value path]
    | Some (JNum _) => failure [mkIssue invalid_enum_value path]
    | _ => failure [mkIssue invalid_type path]
    end.

(** [ParseStatus.mergeObjectSync] on the key and value pairs of a record:
    the object it builds gets every pair but one whose key is [__proto__]. *)
Definition mergeObjectSync (pairs : list (string * json))
  : list (string * json) :=
  filter (fun kv => negb (String.eqb (fst kv) "__proto__")) pairs.

(** [z.record(z.any())]: any object; the output is a new object built from
    the properties of the input, in their order. *)
Definition z_record_any : Schema (list (string * json)) :=
  fun v path =>
    match v with
    | Some (JObj props) => success (mergeObjectSync props)
    | _ => failure [mkIssue invalid_type path]
    end.

(** [.optional()] *)
Definition z_optional {A : Type} (s : Schema A) : Schema (option A) :=
  fun v path =>
    match v with
    | None => success None
    | Some _ =>
        match s v path with
        | success a => success (Some a)
        | failure iss => failure iss
        end
    end.

Definition issues_of {A : Type} (r : SafeParse A) : list ZodIssue :=
  match r with
  | success _ => []
  | failure iss => iss
  end.

(** The elements of an array, each at its index; the issues of all of them
    are collected. *)
Fixpoint z_array_items {A : Type} (s : Schema A) (items : list json) (i : nat)
    (path : list PathSeg) : SafeParse (list A) :=
  match items with
  | [] => success []
  | x :: r =>
      match s (Some x) (path ++ [Idx i])%list,
            z_array_items s r (S i) path with
      | success a, success l => success (a :: l)
      | rx, rr => failure (issues_of rx ++ issues_of rr)%list
      end
  end.

(** [z.array(s)] *)
Definition z_array {A : Type} (s : Schema A) : Schema (list A) :=
  fun v path =>
    match v with
    | Some (JArr items) => z_array_items s items 0 path
    | _ => failure [mkIssue invalid_type path]
    end.

(** The output type of [ApplianceSchema]. *)
Record ApplianceData : Type := mkApplianceData {
  d_name : string;
  d_powerConsumption : Q;
  d_embodiedEmissions : Q;
  d_usageMode : UsageMode;
  d_parameters : option (list (string * json))
}.

(** [z.object({ name, powerConsumption, embodiedEmissions, usageMode,
    parameters })]: every key is read and validated, the issues of all keys
    are collected, keys the shape does not name are dropped. *)
Definition ApplianceSchema : Schema ApplianceData :=
  fun v path =>
    match v with
    | Some (JObj props) =>
        let at_key (k : string) := (path ++ [Key k])%list in
        let r1 := z_string [check_trim; check_min 1]
                    (get props "name") (at_key "name") in
        let r2 := z_number_min 0%Q
                    (get props "powerConsumption") (at_key "powerConsumption") in
        let r3 := z_number_min 0%Q
                    (get props "embodiedEmissions") (at_key "embodiedEmissions") in
        let r4 := z_nativeEnum_UsageMode
                    (get props "usageMode") (at_key "usageMode") in
        let r5 := z_optional z_record_any
                    (get props "parameters") (at_key "parameters") in
        match r1, r2, r3, r4, r5 with
        | success n, success p, success e, success u, success ps =>
            success (mkApplianceData n p e u ps)
        | _, _, _, _, _ =>
            failure (issues_of r1 ++ issues_of r2 ++ issues_of r3
                       ++ issues_of r4 ++ issues_of r5)%list
        end
    | _ => failure [mkIssue invalid_type path]
    end.

Definition AppliancesSchema : Schema (list ApplianceData) :=
  z_array ApplianceSchema.

Definition safeParse {A : Type} (s : Schema A) (v : json) : SafeParse A :=
  s (Some v) [].

(* ================================================================= *)
(** ** What the program takes from its runtime *)

Record Runtime : Type := mkRuntime {
  (** [Bun.file(path).text()] *)
  Bun_file_text : string -> Promise string JsError;
  (** [JSON.parse(text)]: the parsed value, or the error it throws *)
  JSON_parse : string -> JsError + json;
  (** the [message] of the [ZodError] holding these issues *)
  ZodError_message : list ZodIssue -> string;
  (** a number in a template literal *)
  Number_toString : Q -> string;
  (** [new Date(text)]; [None] is an invalid date *)
  Date_parse : string -> option Date;
  Date_toLocaleString : Date -> string;
  Date_toISOString : Date -> string;
  (** the time that the k-th [new Date()] of the run reads *)
  Date_now : nat -> Date;
  (** the number that the k-th [Math.random()] of the run returns *)
  Math_random : nat -> Q
}.

(* ================================================================= *)
(** ** ApplianceLoader *)

Section Loader.

Context (rt : Runtime).

(** The body of the [map] callback: the [for ... in] loop over the own
    properties of [parameters], each stored with [Map.set]. *)
Definition parametersMap (parameters : option (list (string * json)))
  : list (string * json) :=
  match parameters with
  | Some props =>
      fold_left (fun m kv => Map_set m (fst kv) (snd kv)) props []
  | None => []
  end.

Definition toAppliance (applianceData : ApplianceData) : Appliance :=
  mkAppliance (d_name applianceData)
              (d_powerConsumption applianceData)
              (d_embodiedEmissions applianceData)
              (d_usageMode applianceData)
              (parametersMap (d_parameters applianceData)).

(** An [async] function: what it throws is the rejection of its promise. *)
Definition loadAppliancesFromFile (filePath : string)
  : Promise (list Appliance) JsError :=
  match tryCatch (Bun_file_text rt filePath) with
  | Pending => Pending
  | Rejected e => Rejected e
  | Fulfilled fileResult =>
      match error fileResult with
      | Some e =>
          Rejected (new_Error ("Error reading file " ++ filePath ++ ":") (Some e))
      | None =>
          let text := match data fileResult with
                      | Some t => t
                      | None => "undefined"
                      end in
          match JSON_parse rt text with
          | inl e => Rejected e
          | inr jsonData =>
              match safeParse AppliancesSchema jsonData with
              | failure issues =>
                  Rejected (new_Error ("Zod validation error:"
                                         ++ ZodError_message rt issues) None)
              | success validatedData =>
                  Fulfilled (map toAppliance validatedData)
              end
          end
      end
  end.

End Loader.

(* ================================================================= *)
(** ** The console world and the monad of the command handlers *)

(** What the program does to its terminal, in order. *)
Inductive Event : Type :=
| Log (text : string)
| LogContributions (contributions : list CO2Contribution)
| Prompt (msg : string) (dflt : option string).

(** [stdin] lists what the coming calls of [prompt] return ([None] is
    [null]); at the end of the input [prompt] returns [null]. *)
Record World : Type := mkWorld {
  stdin : list (option string);
  console : list Event;
  clock_reads : nat;
  random_reads : nat
}.

Definition IO (A : Type) : Type := World -> A * World.

Definition ret {A : Type} (a : A) : IO A := fun w => (a, w).

Definition bind {A B : Type} (m : IO A) (k : A -> IO B) : IO B :=
  fun w => let '(a, w') := m w in k a w'.

Declare Scope io_scope.
Delimit Scope io_scope with io.
Notation "x <- m ;; k" := (bind m (fun x => k))
  (at level 61, m at next level, right associativity) : io_scope.
Notation "m ;; k" := (bind m (fun _ => k))
  (at level 61, right associativity) : io_scope.
Local Open Scope io_scope.

Definition emit (e : Event) : IO unit :=
  fun w => (tt, mkWorld (stdin w) (console w ++ [e])%list
                        (clock_reads w) (random_reads w)).

Definition console_log (text : string) : IO unit := emit (Log text).

Definition prompt (msg : string) (dflt : option string) : IO (option string) :=
  fun w =>
    let out := (console w ++ [Prompt msg dflt])%list in
    match stdin w with
    | [] => (None, mkWorld [] out (clock_reads w) (random_reads w))
    | x :: rest => (x, mkWorld rest out (clock_reads w) (random_reads w))
    end.

(** [Math.round] on a number of [[0, 1)]: halves round up. *)
Definition Math_round (x : Q) : Z := Qfloor (x + (1 # 2))%Q.

Section Program.

Context (rt : Runtime).

Definition new_Date : IO Date :=
  fun w => (Date_now rt (clock_reads w),
            mkWorld (stdin w) (console w) (S (clock_reads w)) (random_reads w)).

Definition random : IO Q :=
  fun w => (Math_random rt (random_reads w),
            mkWorld (stdin w) (console w) (clock_reads w) (S (random_reads w))).

(** [Array.prototype.map] with a callback that has effects. *)
Fixpoint mapM {A B : Type} (f : A -> IO B) (l : list A) : IO (list B) :=
  match l with
  | [] => ret []
  | x :: r => y <- f x ;; ys <- mapM f r ;; ret (y :: ys)
  end.

(* ----------------------------------------------------------------- *)
(** *** The domain classes *)

Definition Appliance_toString (a : Appliance) : string :=
  a_name a ++ ": Power consumption: " ++ Number_toString rt (a_powerConsumption a)
    ++ ", Embodied emissions: " ++ Number_toString rt (a_embodiedEmissions a)
    ++ ", Usage mode: " ++ UsageMode_value (a_usageMode a) ++ ".".

Definition TimeWindow_toString (t : TimeWindow) : string :=
  Date_toLocaleString rt (tw_start t) ++ " - " ++ Date_toLocaleString rt (tw_end t).

Definition Household_toString (h : Household) : string :=
  let formatedAppliances := join nl (map Appliance_toString (h_appliances h)) in
  Region_value (h_region h) ++ ", " ++ TimeWindow_toString (h_timeWindow h)
    ++ "," ++ nl ++ formatedAppliances.

Definition Scenario_toString (s : Scenario) : string :=
  "Scenario: " ++ s_name s ++ ": Household: "
    ++ Household_toString (s_household s) ++ ".".

(** [Scenario.evaluate] *)
Definition evaluate (s : Scenario) : IO (list CO2Contribution) :=
  mapM (fun a =>
          r <- random ;;
          ret (mkCO2Contribution a (inject_Z (Math_round r) * 100)%Q))
       (h_appliances (s_household s)).

(* ----------------------------------------------------------------- *)
(** *** The controller *)

Record App : Type := mkApp {
  _possibleAppliances : list Appliance;
  _scenarios : list Scenario
}.

(** [new App(possibleAppliances)] *)
Definition App_new (possibleAppliances : list Appliance) : App :=
  mkApp possibleAppliances [].

(** [for (const [index, x] of xs.entries()) console.log(...)] *)
Fixpoint log_entries {A : Type} (toString : A -> string) (l : list A)
    (index : nat) : IO unit :=
  match l with
  | [] => ret tt
  | x :: r =>
      console_log (string_of_nat (index + 1) ++ ". " ++ toString x) ;;
      log_entries toString r (S index)
  end.

Definition listAppliances (this : App) : IO unit :=
  if (List.length (_possibleAppliances this) =? 0)%nat
  then console_log "No possible appliances found or error reading file"
  else
    console_log (nl ++ "Possible appliances:") ;;
    log_entries Appliance_toString (_possibleAppliances this) 0.

Definition listScenarios (this : App) : IO unit :=
  if (List.length (_scenarios this) =? 0)%nat
  then console_log "No scenarios found or error reading file"
  else
    console_log (nl ++ "Scenarios:") ;;
    log_entries Scenario_toString (_scenarios this) 0.

Definition createScenario (this : App) : IO App :=
  let name := "scenario-" ++ string_of_nat (List.length (_scenarios this) + 1) in
  start <- new_Date ;;
  stop <- new_Date ;;
  let household := mkHousehold ASIA (mkTimeWindow start stop) [] in
  let newScenario := mkScenario name household in
  console_log "Scenario created." ;;
  ret (mkApp (_possibleAppliances this) (_scenarios this ++ [newScenario])%list).

Definition getRegion : IO Region :=
  console_log (nl ++ "Select a region:" ++ nl ++ "1. US" ++ nl ++ "2. EU"
                 ++ nl ++ "3. ASIA" ++ nl ++ "4. Not Specified") ;;
  regionInput <- prompt "Enter region number (1-4):" None ;;
  match regionInput with
  | None => ret NOT_SPECIFIED
  | Some regionInput =>
      if String.eqb regionInput "" then ret NOT_SPECIFIED
      else if String.eqb regionInput "1" then ret US
      else if String.eqb regionInput "2" then ret EU
      else if String.eqb regionInput "3" then ret ASIA
      else ret NOT_SPECIFIED
  end.

(** [new Date().toISOString().split("T")[0]] *)
Definition today : IO string :=
  d <- new_Date ;;
  ret (splitHead "T"%char (Date_toISOString rt d)).

(** A prompt whose result is needed: [None] when it is [null] or empty. *)
Definition prompt_required (msg : string) (dflt : string) : IO (option string) :=
  x <- prompt msg (Some dflt) ;;
  ret (if falsy x then None else x).

Definition getTimeWindow : IO (option TimeWindow) :=
  console_log "Setting time window..." ;;
  d1 <- today ;;
  startDateInput <- prompt_required "Enter start date (YYYY-MM-DD):" d1 ;;
  match startDateInput with
  | None => ret None
  | Some startDateInput =>
  startTimeInput <- prompt_required "Enter start time (HH:MM):" "00:00" ;;
  match startTimeInput with
  | None => ret None
  | Some startTimeInput =>
  d2 <- today ;;
  endDateInput <- prompt_required "Enter end date (YYYY-MM-DD):" d2 ;;
  match endDateInput with
  | None => ret None
  | Some endDateInput =>
  endTimeInput <- prompt_required "Enter end time (HH:MM):" "23:59" ;;
  match endTimeInput with
  | None => ret None
  | Some endTimeInput =>
      let startDate := Date_parse rt (startDateInput ++ "T" ++ startTimeInput) in
      let endDate := Date_parse rt (endDateInput ++ "T" ++ endTimeInput) in
      match startDate, endDate with
      | Some startDate, Some endDate =>
          ret (Some (mkTimeWindow startDate endDate))
      | _, _ =>
          console_log "Invalid date or time format." ;;
          ret None
      end
  end end end end.

Definition getScenarioName (scenario : Scenario) : IO string :=
  newName <- prompt "Enter a new name for the scenario:" (Some (s_name scenario)) ;;
  match newName with
  | None => ret (s_name scenario)
  | Some newName =>
      if String.eqb newName "" then ret (s_name scenario) else ret newName
  end.

(** The [while (true)] loop of [getAppliances]: every turn takes one answer
    from the input, and the end of the input answers [null], which leaves
    the loop, so the loop is a recursion on the input. *)
Fixpoint getAppliances_loop (possibleAppliances : list Appliance)
    (input : list (option string)) (selectedAppliances : list Appliance)
    (out : list Event)
  : list Appliance * list (option string) * list Event :=
  let out := (out ++ [Prompt "Enter appliance number or 'done:" None])%list in
  match input with
  | [] => (selectedAppliances, [], out)
  | applianceIndexInput :: rest =>
      match applianceIndexInput with
      | None => (selectedAppliances, rest, out)
      | Some text =>
          if String.eqb text "" || String.eqb (toLowerCase text) "done"
          then (selectedAppliances, rest, out)
          else
            let applianceIndex := option_map (fun n => n - 1)%Z (parseInt text) in
            let chosen :=
              match applianceIndex with
              | Some i =>
                  if ((i <? 0) || (Z.of_nat (List.length possibleAppliances) <=? i))%Z
                  then None
                  else nth_error possibleAppliances (Z.to_nat i)
              | None => None
              end in
            match chosen with
            | None =>
                getAppliances_loop possibleAppliances rest selectedAppliances
                  (out ++ [Log "Invalid appliance number. Please try again."])%list
            | Some a =>
                getAppliances_loop possibleAppliances rest
                  (selectedAppliances ++ [a])%list
                  (out ++ [Log ("Added " ++ Appliance_toString a)])%list
            end
      end
  end.

Definition getAppliances (possibleAppliances : list Appliance)
  : IO (list Appliance) :=
  fun w =>
    let '(selectedAppliances, rest, out) :=
      getAppliances_loop possibleAppliances (stdin w) [] (console w) in
    (selectedAppliances, mkWorld rest out (clock_reads w) (random_reads w)).

(** [Array.prototype.findIndex]; [None] is [-1]. *)
Fixpoint findIndex {A : Type} (p : A -> bool) (l : list A) : option nat :=
  match l with
  | [] => None
  | x :: r => if p x then Some 0 else option_map S (findIndex p r)
  end.

Definition editScenario (this : App) : IO App :=
  listScenarios this ;;
  if (List.length (_scenarios this) =? 0)%nat then ret this else
  input <- prompt "Enter the name of the scenario to edit:" None ;;
  match input with
  | None => ret this
  | Some input =>
  if String.eqb input "" then ret this else
  match findIndex (fun s => String.eqb (s_name s) input) (_scenarios this) with
  | None =>
      console_log ("Scenario " ++ input ++ " not found.") ;;
      ret this
  | Some scenarioIndex =>
  match nth_error (_scenarios this) scenarioIndex with
  | None => ret this (* not reached: [findIndex] returns an index of the list *)
  | Some originalScenario =>
  name <- getScenarioName originalScenario ;;
  timeWindow <- getTimeWindow ;;
  match timeWindow with
  | None => ret this
  | Some timeWindow =>
  region <- getRegion ;;
  listAppliances this ;;
  if (List.length (_possibleAppliances this) =? 0)%nat then
    console_log "No appliances available to add." ;;
    ret this
  else
  console_log (nl ++ "Add appliances to the scenario (enter 'done' when finished):") ;;
  appliances <- getAppliances (_possibleAppliances this) ;;
  let household := mkHousehold region timeWindow appliances in
  let editedScenario := mkScenario name household in
  console_log ("Scenario " ++ name ++ " created as a duplicate of "
                 ++ s_name originalScenario ++ " with your changes.") ;;
  ret (mkApp (_possibleAppliances this) (_scenarios this ++ [editedScenario])%list)
  end end end end.

(** [deleteScenario] returns the filtered list, or [undefined] ([None]);
    the controller it was called on is the first component. *)
Definition deleteScenario (this : App) : IO (App * option (list Scenario)) :=
  listScenarios this ;;
  if (List.length (_scenarios this) =? 0)%nat then ret (this, None) else
  input <- prompt "Enter the name of the scenario to delete:" None ;;
  match input with
  | None => ret (this, None)
  | Some input =>
  if String.eqb input "" then ret (this, None) else
  match find (fun s => String.eqb (s_name s) input) (_scenarios this) with
  | None =>
      console_log ("Scenario " ++ input ++ " not found.") ;;
      ret (this, None)
  | Some scenario =>
      let newScenarios :=
        filter (fun s => negb (String.eqb (s_name s) (s_name scenario)))
               (_scenarios this) in
      console_log ("Scenario " ++ s_name scenario ++ " deleted.") ;;
      ret (this, Some newScenarios)
  end end.

Definition showScenarioReport (this : App) : IO unit :=
  listScenarios this ;;
  if (List.length (_scenarios this) =? 0)%nat then ret tt else
  input <- prompt "Enter the name of the scenario to show report:" None ;;
  match input with
  | None => ret tt
  | Some input =>
  if String.eqb input "" then ret tt else
  match find (fun s => String.eqb (s_name s) input) (_scenarios this) with
  | None => console_log ("Scenario " ++ input ++ " not found.")
  | Some scenario =>
      contributions <- evaluate scenario ;;
      emit (LogContributions contributions)
  end end.

(** The [commands] map of [run], in insertion order: every entry calls its
    handler on the controller and drops what the handler returns. *)
Definition commands : list (string * (App -> IO App)) :=
  [ ("list_appliances", fun this => listAppliances this ;; ret this);
    ("list_scenarios", fun this => listScenarios this ;; ret this);
    ("create_scenario", fun this => createScenario this);
    ("edit_scenario", fun this => editScenario this);
    ("delete_scenario", fun this => r <- deleteScenario this ;; ret (fst r));
    ("show_scenario_report", fun this => showScenarioReport this ;; ret this) ].

(** [Map.prototype.get] *)
Fixpoint Map_get {V : Type} (m : list (string * V)) (key : string) : option V :=
  match m with
  | [] => None
  | (k, v) :: r => if String.eqb k key then Some v else Map_get r key
  end.

Definition allCommands : list string := "exit" :: map fst commands.

(** The [while (true)] loop of [run], for at most [fuel] turns: [Some] is the
    controller at [exit], [None] says that the turns ran out first. *)
Fixpoint run_loop (fuel : nat) (this : App) : IO (option App) :=
  match fuel with
  | O => ret None
  | S fuel =>
      input <- prompt "Enter a command and press Enter:" None ;;
      if falsy input then run_loop fuel this else
      let formattedInput :=
        toLowerCase (trim match input with Some s => s | None => "" end) in
      match Map_get commands formattedInput with
      | Some command =>
          this' <- command this ;;
          run_loop fuel this'
      | None =>
          if String.eqb formattedInput "exit" then
            console_log "Goodbye!" ;;
            ret (Some this)
          else
            console_log ("Unknown command." ++ nl ++ " Available commands: "
                           ++ join ", " allCommands ++ nl) ;;
            run_loop fuel this
      end
  end.

Definition run (fuel : nat) (this : App) : IO (option App) :=
  console_log ("Available commands: " ++ join ", " allCommands ++ nl) ;;
  run_loop fuel this.

End Program.

(* ================================================================= *)
(** ** The entry point *)

(** How [main] ends. [console.error] writes to the error stream, which is
    not the console of the world. *)
Inductive MainOutcome : Type :=
| Waiting
| Crashed (thrown : JsError)
| Failed (printed : JsError) (w : World)
| Started (final : option App) (w : World)
| NoCatalog.

(** [main]: [Waiting] while the read does not settle, [Crashed] if the
    awaited promise rejects, [Failed] after [console.error(error)],
    [Started] with what the command loop gives; [NoCatalog] stands for a
    controller made from [undefined], when the result has neither
    property. *)
Definition main (rt : Runtime) (fuel : nat) (w : World) : MainOutcome :=
  match tryCatch (loadAppliancesFromFile rt "./appliances.json") with
  | Pending => Waiting
  | Rejected e => Crashed e
  | Fulfilled result =>
      match error result with
      | Some error => Failed error w
      | None =>
          match data result with
          | Some appliances =>
              let app := App_new appliances in
              let '(final, w') := run rt fuel app w in
              Started final w'
          | None => NoCatalog
          end
      end
  end.

(* ================================================================= *)
(** ** A small runtime and world, used by the examples *)

Module Fixture.

Definition dq : string := String (ascii_of_nat 34) EmptyString.
Definition quoted (s : string) : string := dq ++ s ++ dq.

Definition record_text (name power emissions mode : string) : string :=
  "{" ++ quoted "name" ++ ":" ++ quoted name
      ++ "," ++ quoted "powerConsumption" ++ ":" ++ power
      ++ "," ++ quoted "embodiedEmissions" ++ ":" ++ emissions
      ++ "," ++ quoted "usageMode" ++ ":" ++ quoted mode ++ "}".

Definition record_json (name : string) (power emissions : Q) (mode : string)
  : json :=
  JObj [("name", JStr name); ("powerConsumption", JNum power);
        ("embodiedEmissions", JNum emissions); ("usageMode", JStr mode)].

(** [./appliances.json]: a fridge, and a kettle with parameters. *)
Definition kettle_parameters : list (string * json) :=
  [("volume", JNum (17 # 10)); ("colour", JStr "red")].

Definition kettle_json : json :=
  JObj [("name", JStr "Kettle"); ("powerConsumption", JNum 2000);
        ("embodiedEmissions", JNum 12); ("usageMode", JStr "ON_DEMAND");
        ("parameters", JObj kettle_parameters)].

Definition appliances_text : string :=
  "[" ++ record_text "Fridge" "150" "50" "ALWAYS_ON" ++ ",{"
      ++ quoted "name" ++ ":" ++ quoted "Kettle"
      ++ "," ++ quoted "powerConsumption" ++ ":2000"
      ++ "," ++ quoted "embodiedEmissions" ++ ":12"
      ++ "," ++ quoted "usageMode" ++ ":" ++ quoted "ON_DEMAND"
      ++ "," ++ quoted "parameters" ++ ":{" ++ quoted "volume" ++ ":1.7,"
      ++ quoted "colour" ++ ":" ++ quoted "red" ++ "}}]".

Definition appliances_json : json :=
  JArr [record_json "Fridge" 150 50 "ALWAYS_ON"; kettle_json].

(** [./padded.json]: one record whose name has spaces around it. *)
Definition padded_text : string :=
  "[" ++ record_text " Fridge " "150" "50" "ALWAYS_ON" ++ "]".

Definition padded_json : json :=
  JArr [record_json " Fridge " 150 50 "ALWAYS_ON"].

(** [./negative.json]: the second record has a negative power consumption. *)
Definition negative_text : string :=
  "[" ++ record_text "Fridge" "150" "50" "ALWAYS_ON" ++ ","
      ++ record_text "Heater" "-1" "30" "ON_DEMAND" ++ "]".

Definition negative_json : json :=
  JArr [record_json "Fridge" 150 50 "ALWAYS_ON";
        record_json "Heater" (-1) 30 "ON_DEMAND"].

(** The error of reading a file that does not exist. *)
Definition ENOENT (path : string) : JsError :=
  mkError ("ENOENT: no such file or directory, open '" ++ path ++ "'") None.

Definition files : list (string * string) :=
  [("./appliances.json", appliances_text);
   ("./padded.json", padded_text);
   ("./negative.json", negative_text)].

Definition parsed : list (string * json) :=
  [(appliances_text, appliances_json);
   (padded_text, padded_json);
   (negative_text, negative_json)].

Definition string_of_Z (z : Z) : string :=
  NilEmpty.string_of_int (Z.to_int z).

Definition rt : Runtime := {|
  Bun_file_text path :=
    match Map_get files path with
    | Some text => Fulfilled text
    | None => Rejected (ENOENT path)
    end;
  JSON_parse text :=
    match Map_get parsed text with
    | Some v => inr v
    | None => inl (mkError "JSON Parse error: Unexpected token" None)
    end;
  ZodError_message issues := string_of_nat (List.length issues) ++ " issue(s)";
  Number_toString q :=
    string_of_Z (Qnum q)
      ++ (if Pos.eqb (Qden q) 1 then "" else "/" ++ string_of_Z (Zpos (Qden q)));
  Date_parse text :=
    if String.eqb text "2024-01-01T00:00" then Some 1704067200000%Z
    else if String.eqb text "2024-01-02T23:59" then Some 1704239940000%Z
    else None;
  Date_toLocaleString d := string_of_Z d;
  Date_toISOString d := "2024-01-01T00:00:00.000Z";
  Date_now k := (1704067200000 + Z.of_nat k)%Z;
  Math_random k := if Nat.even k then (1 # 4)%Q else (3 # 4)%Q
|}.

Definition fridge : Appliance := mkAppliance "Fridge" 150 50 ALWAYS_ON [].

Definition kettle : Appliance :=
  mkAppliance "Kettle" 2000 12 ON_DEMAND kettle_parameters.

Definition catalog : list Appliance := [fridge; kettle].

Definition world (input : list (option string)) : World :=
  mkWorld input [] 0 0.

(** The placeholder scenario that [create_scenario] makes first. *)
Definition scenario1 : Scenario :=
  mkScenario "scenario-1"
    (mkHousehold ASIA (mkTimeWindow 1704067200000%Z 1704067200001%Z) []).

(** The answers of a complete edit of [scenario-1] up to the appliance
    selection: target, new name, start and end of the window, region. *)
Definition edit_answers : list (option string) :=
  [Some "scenario-1"; Some "kitchen"; Some "2024-01-01"; Some "00:00";
   Some "2024-01-02"; Some "23:59"; Some "2"].

(** [./proto.json]: one record whose name has spaces around it and whose
    parameters have a key [__proto__]; [rt_proto] is [rt] with this file. *)
Definition proto_parameters : list (string * json) :=
  [("a", JNum 1); ("__proto__", JObj []); ("b", JNum 2)].

Definition proto_record : json :=
  JObj [("name", JStr " Fridge "); ("powerConsumption", JNum 150);
        ("embodiedEmissions", JNum 50); ("usageMode", JStr "ALWAYS_ON");
        ("parameters", JObj proto_parameters)].

Definition proto_text : string :=
  "[{" ++ quoted "name" ++ ":" ++ quoted " Fridge "
       ++ "," ++ quoted "powerConsumption" ++ ":150"
       ++ "," ++ quoted "embodiedEmissions" ++ ":50"
       ++ "," ++ quoted "usageMode" ++ ":" ++ quoted "ALWAYS_ON"
       ++ "," ++ quoted "parameters" ++ ":{" ++ quoted "a" ++ ":1,"
       ++ quoted "__proto__" ++ ":{}," ++ quoted "b" ++ ":2}}]".

Definition rt_proto : Runtime :=
  mkRuntime
    (fun path => if String.eqb path "./proto.json" then Fulfilled proto_text
                 else Bun_file_text rt path)
    (fun text => if String.eqb text proto_text then inr (JArr [proto_record])
                 else JSON_parse rt text)
    (ZodError_message rt) (Number_toString rt) (Date_parse rt)
    (Date_toLocaleString rt) (Date_toISOString rt) (Date_now rt)
    (Math_random rt).

End Fixture.

(* ================================================================= *)
(** ** The vocabulary of the specification *)

(** A result object with exactly one of its two properties. *)
Definition exactly_one {T E : Type} (r : Result T E) : Prop :=
  (data r <> None /\ error r = None) \/ (data r = None /\ error r <> None).

(** The record [e] of a catalog file is an object with these fields;
    [parameters = None] says that the record has no [parameters]. *)
Definition is_record (e : json) (name : string) (power emissions : Q)
    (mode : UsageMode) (parameters : option (list (string * json))) : Prop :=
  exists props,
    e = JObj props /\
    get props "name" = Some (JStr name) /\
    get props "powerConsumption" = Some (JNum power) /\
    get props "embodiedEmissions" = Some (JNum emissions) /\
    get props "usageMode" = Some (JStr (UsageMode_value mode)) /\
    get props "parameters" = option_map JObj parameters.

(** The keys of an object are distinct. *)
Definition distinct_keys (parameters : option (list (string * json))) : Prop :=
  match parameters with
  | Some props => NoDup (map fst props)
  | None => True
  end.

(** A valid record: a name that is not empty once trimmed, a power
    consumption and embodied emissions that are not negative, one of the two
    usage modes, and no parameters or an object of parameters. *)
Definition valid_record (e : json) : Prop :=
  exists name power emissions mode parameters,
    is_record e name power emissions mode parameters /\
    trim name <> "" /\
    (0 <= power)%Q /\
    (0 <= emissions)%Q /\
    distinct_keys parameters.

(** The appliance [a] has the fields of the record [e], the name without
    the white space around it and the parameters without a key
    [__proto__]. *)
Definition loaded_from (e : json) (a : Appliance) : Prop :=
  forall name power emissions mode parameters,
    is_record e name power emissions mode parameters ->
    a_name a = trim name /\
    a_powerConsumption a = power /\
    a_embodiedEmissions a = emissions /\
    a_usageMode a = mode /\
    a_parameters a = match parameters with
                     | Some props => mergeObjectSync props
                     | None => []
                     end.

(** A record that the schema must refuse: a negative power consumption,
    negative embodied emissions, or a usage mode that is neither
    [ALWAYS_ON] nor [ON_DEMAND]. *)
Definition offending_record (e : json) : Prop :=
  exists props,
    e = JObj props /\
    ((exists q, get props "powerConsumption" = Some (JNum q) /\ (q < 0)%Q) \/
     (exists q, get props "embodiedEmissions" = Some (JNum q) /\ (q < 0)%Q) \/
     (exists v, get props "usageMode" = Some v /\
                v <> JStr "ALWAYS_ON" /\ v <> JStr "ON_DEMAND")).

(** The error that the loader throws when the schema refuses the file. *)
Definition SchemaValidationError (e : JsError) : Prop :=
  exists detail, message e = "Zod validation error:" ++ detail.

(** The error that the loader throws when the file cannot be read. *)
Definition FileReadError (path : string) (e : JsError) : Prop :=
  message e = "Error reading file " ++ path ++ ":".

(** A command invoked [n] times in a row. *)
Fixpoint times (n : nat) (command : App -> IO App) (this : App) : IO App :=
  match n with
  | O => ret this
  | S k => this' <- command this ;; times k command this'
  end.

(** The scenario that [create_scenario] makes at position [i]. *)
Definition placeholder (i : nat) (s : Scenario) : Prop :=
  s_name s = "scenario-" ++ string_of_nat (i + 1) /\
  h_appliances (s_household s) = [] /\
  h_region (s_household s) = ASIA.

(** The world after the message of an empty scenario list, and nothing
    else: no prompt, no answer taken. *)
Definition after_empty_list_message (w : World) : World :=
  mkWorld (stdin w)
          (console w ++ [Log "No scenarios found or error reading file"])%list
          (clock_reads w) (random_reads w).

(** The region that the menu gives for an answer. *)
Definition region_of_answer (answer : option string) : Region :=
  match answer with
  | Some "1" => US
  | Some "2" => EU
  | Some "3" => ASIA
  | _ => NOT_SPECIFIED
  end.

(** The name of the duplicate for an answer to the name prompt. *)
Definition name_of_answer (answer : option string) (original : string) : string :=
  match answer with
  | Some "" => original
  | Some newName => newName
  | None => original
  end.

(** The answers of an edit in which the named scenario exists and every
    prompt up to the region succeeds: the target name, the answer to the
    name prompt, the four parts of the time window, which parse to two
    dates, the answer to the region menu, and what is left for the
    appliance selection. *)
Definition edit_answers_succeed (rt : Runtime) (this : App) (w : World)
    (input : string) (newName : option string) (sd st ed et : string)
    (startDate endDate : Date) (regionInput : option string)
    (rest : list (option string)) : Prop :=
  stdin w = Some input :: newName :: Some sd :: Some st :: Some ed :: Some et
              :: regionInput :: rest /\
  input <> "" /\ sd <> "" /\ st <> "" /\ ed <> "" /\ et <> "" /\
  Exists (fun s => s_name s = input) (_scenarios this) /\
  Date_parse rt (sd ++ "T" ++ st) = Some startDate /\
  Date_parse rt (ed ++ "T" ++ et) = Some endDate.

(** The appliances that the selection loop picks from the catalog for the
    answers it is given. *)
Definition selection (rt : Runtime) (possibleAppliances : list Appliance)
    (answers : list (option string)) : list Appliance :=
  fst (fst (getAppliances_loop rt possibleAppliances answers [] [])).

(** The scenario that a complete edit builds. *)
Definition edited (rt : Runtime) (this : App) (input : string)
    (newName : option string) (startDate endDate : Date)
    (regionInput : option string) (rest : list (option string)) : Scenario :=
  mkScenario (name_of_answer newName input)
    (mkHousehold (region_of_answer regionInput)
       (mkTimeWindow startDate endDate)
       (selection rt (_possibleAppliances this) rest)).

(** The schema output [d] for the record [e]: an object with a string
    name that is not empty once trimmed, two numbers that are not negative,
    a usage mode of the enumeration, and no parameters or an object; the
    output has the trimmed name and the parameters without a key
    [__proto__]. *)
Definition accepted_record (e : json) (d : ApplianceData) : Prop :=
  exists props name,
    e = JObj props /\
    get props "name" = Some (JStr name) /\
    trim name <> "" /\
    d_name d = trim name /\
    get props "powerConsumption" = Some (JNum (d_powerConsumption d)) /\
    (0 <= d_powerConsumption d)%Q /\
    get props "embodiedEmissions" = Some (JNum (d_embodiedEmissions d)) /\
    (0 <= d_embodiedEmissions d)%Q /\
    get props "usageMode" = Some (JStr (UsageMode_value (d_usageMode d))) /\
    exists parameters,
      get props "parameters" = option_map JObj parameters /\
      d_parameters d = option_map mergeObjectSync parameters.

(** A string that does not start with white space. *)
Definition clean_start (s : string) : Prop :=
  match s with
  | EmptyString => True
  | String c _ => isWhiteSpace c = false
  end.

(** The first code unit of a string. *)
Definition first_char (s : string) : option ascii :=
  match s with
  | EmptyString => None
  | String c _ => Some c
  end.

(** The lines of a listing: each element after its number, from [index]. *)
Fixpoint numbered {A : Type} (toString : A -> string) (l : list A)
    (index : nat) : list Event :=
  match l with
  | [] => []
  | x :: r =>
      Log (string_of_nat (index + 1) ++ ". " ++ toString x)
        :: numbered toString r (S index)
  end.

(** Every scenario of the controller holds appliances of the catalog. *)
Definition from_catalog (this : App) : Prop :=
  Forall (fun s => Forall (fun a => In a (_possibleAppliances this))
                          (h_appliances (s_household s)))
         (_scenarios this).

(* ================================================================= *)
(** ** Properties of [tryCatch] *)

(** C7. For every wrapped operation, [tryCatch] never rejects; when the
    operation succeeds its result is [{ data }] with the value, when the
    operation fails its result is [{ error }] with the failure, and a
    result it gives has exactly one of the two properties. *)
Theorem tryCatch_exactly_one_outcome :
  forall (T E : Type) (promise : Promise T E),
    (forall e, tryCatch promise <> Rejected e) /\
    (forall v, promise = Fulfilled v ->
       tryCatch promise = Fulfilled {| data := Some v; error := None |}) /\
    (forall e, promise = Rejected e ->
       tryCatch promise = Fulfilled {| data := None; error := Some e |}) /\
    (forall r, tryCatch promise = Fulfilled r -> exactly_one r).
Proof.
  intros T E promise. repeat split.
  - intros e. destruct promise; discriminate.
  - intros v ->. reflexivity.
  - intros e ->. reflexivity.
  - intros r H. destruct promise; simpl in H; inversion H; subst; clear H.
    + left. split; [discriminate | reflexivity].
    + right. split; [reflexivity | discriminate].
Qed.

(** A settled operation always gets a result. *)
Lemma tryCatch_settles :
  forall (T E : Type) (promise : Promise T E),
    promise <> Pending -> exists r, tryCatch promise = Fulfilled r.
Proof.
  intros T E [v | e |] H; simpl; eauto. contradiction.
Qed.

(* ================================================================= *)
(** ** The loader: a file that cannot be read *)

(** What the loader throws when the read fails with [e]: the second
    argument of [new Error] is read as an options object, so the thrown
    error gets the cause of [e], not [e]. *)
Lemma loadAppliancesFromFile_read_failure :
  forall rt path e,
    Bun_file_text rt path = Rejected e ->
    loadAppliancesFromFile rt path
    = Rejected (mkError ("Error reading file " ++ path ++ ":") (cause e)).
Proof.
  intros rt path e H. unfold loadAppliancesFromFile. rewrite H. reflexivity.
Qed.

(** No error is its own cause. *)
Lemma cause_irreflexive : forall e, cause e <> Some e.
Proof.
  fix IH 1. intros [m [c |]]; simpl.
  - intros H. injection H as H. specialize (IH c). rewrite H in IH.
    simpl in IH. apply IH. f_equal. exact H.
  - discriminate.
Qed.

(** C8, at a file that does not exist: the read fails with an ENOENT error,
    the loader throws a file-read error, and that error has no cause, so
    the read error cannot be recovered from it. *)
Theorem missing_file_error_has_no_cause :
  Bun_file_text Fixture.rt "./missing.json"
    = Rejected (Fixture.ENOENT "./missing.json") /\
  exists thrown,
    loadAppliancesFromFile Fixture.rt "./missing.json" = Rejected thrown /\
    FileReadError "./missing.json" thrown /\
    cause thrown = None /\
    cause thrown <> Some (Fixture.ENOENT "./missing.json").
Proof.
  split; [reflexivity |].
  eexists. split; [reflexivity |].
  repeat split; simpl; discriminate.
Qed.

(** Whatever the read error is, it is not the cause of what is thrown. *)
Lemma read_error_is_never_the_cause :
  forall rt path e,
    Bun_file_text rt path = Rejected e ->
    exists thrown,
      loadAppliancesFromFile rt path = Rejected thrown /\
      FileReadError path thrown /\
      cause thrown = cause e /\
      cause thrown <> Some e.
Proof.
  intros rt path e H. eexists. split.
  - apply loadAppliancesFromFile_read_failure. exact H.
  - split; [reflexivity |]. split; [reflexivity |]. exact (cause_irreflexive e).
Qed.

(* ================================================================= *)
(** ** The handlers on an empty scenario list *)

Section EmptyList.

Context (rt : Runtime).

Lemma listScenarios_empty :
  forall this w,
    _scenarios this = [] ->
    listScenarios rt this w = (tt, after_empty_list_message w).
Proof.
  intros this w H. unfold listScenarios. rewrite H. reflexivity.
Qed.

(** C9. On an empty scenario list each of [edit_scenario],
    [delete_scenario] and [show_scenario_report] prints the message of the
    empty list and returns: the controller is the one it was, no prompt is
    made and no answer is taken from the input. *)
Theorem handlers_return_at_once_on_empty_list :
  forall this w,
    _scenarios this = [] ->
    editScenario rt this w = (this, after_empty_list_message w) /\
    deleteScenario rt this w = ((this, None), after_empty_list_message w) /\
    showScenarioReport rt this w = (tt, after_empty_list_message w).
Proof.
  intros this w H.
  unfold editScenario, deleteScenario, showScenarioReport, bind.
  rewrite (listScenarios_empty this w H), H. simpl. auto.
Qed.

End EmptyList.

(** The message is the only thing the console gets, and it is no prompt. *)
Lemma after_empty_list_message_no_prompt :
  forall w,
    stdin (after_empty_list_message w) = stdin w /\
    console (after_empty_list_message w)
    = (console w ++ [Log "No scenarios found or error reading file"])%list.
Proof. intros w. split; reflexivity. Qed.

Lemma handlers_return_at_once_on_empty_list_witness :
  _scenarios (App_new Fixture.catalog) = [] /\
  editScenario Fixture.rt (App_new Fixture.catalog)
    (Fixture.world [Some "scenario-1"])
  = (App_new Fixture.catalog,
     after_empty_list_message (Fixture.world [Some "scenario-1"])).
Proof.
  split; [reflexivity |].
  apply (handlers_return_at_once_on_empty_list Fixture.rt
           (App_new Fixture.catalog) (Fixture.world [Some "scenario-1"])).
  reflexivity.
Defined.

(* ================================================================= *)
(** ** [delete_scenario] *)

Section Delete.

Context (rt : Runtime).

(** [deleteScenario] never assigns [_scenarios]: the controller after it
    is the controller before it, whatever it returns. *)
Lemma deleteScenario_keeps_the_controller :
  forall this w, fst (fst (deleteScenario rt this w)) = this.
Proof.
  intros this w. unfold deleteScenario, bind, ret.
  destruct (listScenarios rt this w) as [[] w1].
  destruct (List.length (_scenarios this) =? 0)%nat; [reflexivity |].
  destruct (prompt _ _ w1) as [[input |] w2]; [| reflexivity].
  destruct (String.eqb input ""); [reflexivity |].
  destruct (find _ _) as [scenario |].
  - destruct (console_log _ w2). reflexivity.
  - destruct (console_log _ w2). reflexivity.
Qed.

(** What it returns for a name that matches has no scenario of that name. *)
Lemma deleteScenario_returns_filtered :
  forall this w newScenarios,
    snd (fst (deleteScenario rt this w)) = Some newScenarios ->
    exists input,
      Exists (fun s => s_name s = input) (_scenarios this) /\
      newScenarios
      = filter (fun s => negb (String.eqb (s_name s) input)) (_scenarios this) /\
      Forall (fun s => s_name s <> input) newScenarios.
Proof.
  intros this w newScenarios. unfold deleteScenario, bind, ret.
  destruct (listScenarios rt this w) as [[] w1].
  destruct (List.length (_scenarios this) =? 0)%nat; [discriminate |].
  destruct (prompt _ _ w1) as [[input |] w2]; [| discriminate].
  destruct (String.eqb input ""); [discriminate |].
  destruct (find _ _) as [scenario |] eqn:F.
  - destruct (console_log _ w2). simpl. intros H. inversion H; subst; clear H.
    apply find_some in F. destruct F as [Hin Hname].
    apply String.eqb_eq in Hname. exists input. rewrite Hname. repeat split.
    + apply Exists_exists. exists scenario. split; assumption.
    + apply Forall_forall. intros s Hs. apply filter_In in Hs.
      destruct Hs as [_ Hs]. apply negb_true_iff in Hs.
      apply String.eqb_neq in Hs. exact Hs.
  - destruct (console_log _ w2). discriminate.
Qed.

End Delete.

(** C1, at a controller that holds [scenario-1] and the answer
    [scenario-1]: the handler reports the deletion and returns the empty
    list, and the controller still holds [scenario-1]; a [list_scenarios]
    after it prints the scenario again. *)
Theorem deleteScenario_leaves_the_scenario_in_the_controller :
  let this := mkApp Fixture.catalog [Fixture.scenario1] in
  exists w',
    deleteScenario Fixture.rt this (Fixture.world [Some "scenario-1"])
    = ((this, Some []), w') /\
    last (console w') (Log "") = Log "Scenario scenario-1 deleted." /\
    _scenarios this = [Fixture.scenario1] /\
    exists w'',
      run Fixture.rt 4 (App_new Fixture.catalog)
        (Fixture.world [Some "create_scenario"; Some "delete_scenario";
                        Some "scenario-1"; Some "list_scenarios"; Some "exit"])
      = (Some this, w'') /\
      last (removelast (removelast (console w''))) (Log "")
      = Log ("1. " ++ Scenario_toString Fixture.rt Fixture.scenario1).
Proof.
  intros this.
  exists (snd (deleteScenario Fixture.rt this (Fixture.world [Some "scenario-1"]))).
  split; [vm_compute; reflexivity |].
  split; [vm_compute; reflexivity |].
  split; [reflexivity |].
  exists (snd (run Fixture.rt 4 (App_new Fixture.catalog)
                 (Fixture.world [Some "create_scenario"; Some "delete_scenario";
                                 Some "scenario-1"; Some "list_scenarios";
                                 Some "exit"]))).
  split; vm_compute; reflexivity.
Qed.

(* ================================================================= *)
(** ** [edit_scenario] with an empty catalog *)

Section EditEmptyCatalog.

Context (rt : Runtime).

(** C10. With an empty catalog [edit_scenario] appends nothing, whatever
    the answers are: the controller after it, and so its scenario list, is
    the one before it. *)
Theorem editScenario_empty_catalog_changes_nothing :
  forall this w,
    _possibleAppliances this = [] ->
    fst (editScenario rt this w) = this /\
    _scenarios (fst (editScenario rt this w)) = _scenarios this.
Proof.
  intros this w H.
  assert (E : fst (editScenario rt this w) = this);
    [| split; [exact E | rewrite E; reflexivity]].
  unfold editScenario, bind, ret. rewrite H. simpl.
  destruct (listScenarios rt this w) as [[] w1].
  destruct (List.length (_scenarios this) =? 0)%nat; [reflexivity |].
  destruct (prompt _ _ w1) as [[input |] w2]; [| reflexivity].
  destruct (String.eqb input ""); [reflexivity |].
  destruct (findIndex _ _) as [scenarioIndex |].
  - destruct (nth_error _ _) as [originalScenario |]; [| reflexivity].
    destruct (getScenarioName originalScenario w2) as [name w3].
    destruct (getTimeWindow rt w3) as [[timeWindow |] w4]; [| reflexivity].
    destruct (getRegion w4) as [region w5].
    destruct (listAppliances rt this w5) as [[] w6].
    reflexivity.
  - reflexivity.
Qed.

End EditEmptyCatalog.

(** With the name of an existing scenario and valid answers the handler
    reaches the catalog check and stops there. *)
Lemma editScenario_empty_catalog_changes_nothing_witness :
  _possibleAppliances (mkApp [] [Fixture.scenario1]) = [] /\
  _scenarios (fst (editScenario Fixture.rt (mkApp [] [Fixture.scenario1])
                     (Fixture.world Fixture.edit_answers)))
  = [Fixture.scenario1].
Proof.
  split; [reflexivity |].
  apply (editScenario_empty_catalog_changes_nothing Fixture.rt
           (mkApp [] [Fixture.scenario1]) (Fixture.world Fixture.edit_answers)).
  reflexivity.
Defined.

Example editScenario_empty_catalog_message :
  last (console (snd (editScenario Fixture.rt (mkApp [] [Fixture.scenario1])
                        (Fixture.world Fixture.edit_answers)))) (Log "")
  = Log "No appliances available to add.".
Proof. vm_compute. reflexivity. Qed.

(* ================================================================= *)
(** ** [create_scenario] *)

Section Create.

Context (rt : Runtime).

(** One call appends the placeholder named after the new length and
    leaves the rest of the controller as it was. *)
Lemma createScenario_appends :
  forall this w,
    exists start stop w',
      createScenario rt this w
      = (mkApp (_possibleAppliances this)
               (_scenarios this
                  ++ [mkScenario
                        ("scenario-" ++ string_of_nat (List.length (_scenarios this) + 1))
                        (mkHousehold ASIA (mkTimeWindow start stop) [])])%list,
         w').
Proof.
  intros this w.
  exists (Date_now rt (clock_reads w)), (Date_now rt (S (clock_reads w))),
         (snd (createScenario rt this w)).
  reflexivity.
Qed.

Lemma times_createScenario :
  forall n this w,
    map s_name (_scenarios this)
    = map (fun k => "scenario-" ++ string_of_nat k)
          (seq 1 (List.length (_scenarios this))) ->
    Forall (fun s => h_appliances (s_household s) = []
                     /\ h_region (s_household s) = ASIA) (_scenarios this) ->
    let this' := fst (times n (createScenario rt) this w) in
    List.length (_scenarios this') = List.length (_scenarios this) + n /\
    map s_name (_scenarios this')
    = map (fun k => "scenario-" ++ string_of_nat k)
          (seq 1 (List.length (_scenarios this'))) /\
    Forall (fun s => h_appliances (s_household s) = []
                     /\ h_region (s_household s) = ASIA) (_scenarios this').
Proof.
  induction n as [| n IH]; intros this w Hnames Hempty.
  - simpl. repeat split; auto.
  - destruct (createScenario_appends this w) as (start & stop & w' & E).
    cbn [times]. unfold bind. rewrite E.
    match goal with
    | |- context [times n _ ?a w'] => specialize (IH a w')
    end.
    cbn [_scenarios] in IH.
    rewrite length_app in IH. cbn [List.length] in IH.
    destruct IH as (Hlen & Hn & He).
    + rewrite Nat.add_1_r, seq_S, !map_app, <- Hnames. reflexivity.
    + apply Forall_app. split; [exact Hempty |].
      constructor; [split; reflexivity | constructor].
    + cbn zeta. split; [rewrite Hlen; lia | split; [exact Hn | exact He]].
Qed.

(** C4. For every N (so for every N of at least 1), N calls of
    [create_scenario] on a new controller give N scenarios, named
    [scenario-1] to [scenario-N] in this order, each with a household that
    has no appliance and the region ASIA. *)
Theorem createScenario_N_times :
  forall (N : nat) (possibleAppliances : list Appliance) (w : World),
    let this' := fst (times N (createScenario rt) (App_new possibleAppliances) w) in
    List.length (_scenarios this') = N /\
    map s_name (_scenarios this')
    = map (fun k => "scenario-" ++ string_of_nat k) (seq 1 N) /\
    Forall (fun s => h_appliances (s_household s) = []
                     /\ h_region (s_household s) = ASIA) (_scenarios this').
Proof.
  intros N possibleAppliances w.
  destruct (times_createScenario N (App_new possibleAppliances) w)
    as (Hlen & Hn & He); [reflexivity | constructor |].
  cbn zeta. simpl in Hlen. rewrite Hlen in Hn. repeat split; assumption.
Qed.

End Create.

Example createScenario_three_times :
  map s_name
      (_scenarios (fst (times 3 (createScenario Fixture.rt)
                          (App_new Fixture.catalog) (Fixture.world []))))
  = ["scenario-1"; "scenario-2"; "scenario-3"].
Proof. reflexivity. Qed.

(** The same through the command loop: three [create_scenario] lines and
    [exit]. *)
Example run_create_three :
  option_map (fun this => map s_name (_scenarios this))
    (fst (run Fixture.rt 4 (App_new Fixture.catalog)
            (Fixture.world [Some "create_scenario"; Some " Create_Scenario ";
                            Some "create_scenario"; Some "exit"])))
  = Some ["scenario-1"; "scenario-2"; "scenario-3"].
Proof. vm_compute. reflexivity. Qed.

(* ================================================================= *)
(** ** [Scenario.evaluate] *)

Lemma Math_round_unit :
  forall r : Q, (0 <= r)%Q -> (r < 1)%Q -> Math_round r = 0%Z \/ Math_round r = 1%Z.
Proof.
  intros r H0 H1. unfold Math_round.
  pose proof (Qfloor_le (r + (1 # 2))) as Hle.
  pose proof (Qlt_floor (r + (1 # 2))) as Hlt.
  set (z := Qfloor (r + (1 # 2))) in *. clearbody z.
  destruct r as [a b].
  unfold Qle, Qlt, Qplus, inject_Z in *. simpl in *.
  assert (z = 0 \/ z = 1)%Z by nia. assumption.
Qed.

(** Every element of the result of [mapM] comes from the element at the
    same place of the list. *)
Lemma mapM_Forall2 :
  forall (A B : Type) (f : A -> IO B) (P : A -> B -> Prop),
    (forall a w, P a (fst (f a w))) ->
    forall l w, Forall2 P l (fst (mapM f l w)).
Proof.
  intros A B f P Hf. induction l as [| x l IH]; intros w.
  - constructor.
  - cbn [mapM]. unfold bind, ret.
    pose proof (Hf x w) as Hx. destruct (f x w) as [y w1].
    pose proof (IH w1) as Hl. destruct (mapM f l w1) as [ys w2].
    constructor; assumption.
Qed.

Section Evaluate.

Context (rt : Runtime).

Hypothesis random_range :
  forall k, (0 <= Math_random rt k)%Q /\ (Math_random rt k < 1)%Q.

Lemma evaluate_appliances :
  forall (s : Scenario) (w : World),
    Forall2 (fun a c => c_appliance c = a
                        /\ (c_value c = 0%Q \/ c_value c = 100%Q))
            (h_appliances (s_household s)) (fst (evaluate rt s w)).
Proof.
  intros s w. unfold evaluate. apply mapM_Forall2. clear w.
  intros a w. unfold bind, random, ret. cbn [fst c_appliance c_value].
  split; [reflexivity |].
  destruct (random_range (random_reads w)) as [H0 H1].
  destruct (Math_round_unit _ H0 H1) as [E | E]; rewrite E;
    [left | right]; reflexivity.
Qed.

(** C5. A scenario whose household holds k appliances evaluates to k
    contributions, the i-th for the i-th appliance of the household, and
    every value is 0 or 100, whatever numbers of [[0, 1)] the random source
    gives. *)
Theorem evaluate_one_contribution_per_appliance :
  forall (s : Scenario) (w : World),
    let contributions := fst (evaluate rt s w) in
    List.length contributions = List.length (h_appliances (s_household s)) /\
    map c_appliance contributions = h_appliances (s_household s) /\
    Forall (fun c => c_value c = 0%Q \/ c_value c = 100%Q) contributions.
Proof.
  intros s w. cbn zeta.
  pose proof (evaluate_appliances s w) as H.
  induction H as [| a c appliances contributions [Ha Hv] _ (IHl & IHa & IHv)].
  - repeat split; constructor.
  - cbn [List.length map]. rewrite IHl, IHa, Ha.
    repeat split. constructor; assumption.
Qed.

End Evaluate.

Lemma evaluate_one_contribution_per_appliance_witness :
  (forall k, (0 <= Math_random Fixture.rt k)%Q /\ (Math_random Fixture.rt k < 1)%Q) /\
  Forall (fun c => c_value c = 0%Q \/ c_value c = 100%Q)
         (fst (evaluate Fixture.rt
                 (mkScenario "kitchen"
                    (mkHousehold EU (mkTimeWindow 0%Z 0%Z) Fixture.catalog))
                 (Fixture.world []))).
Proof.
  assert (R : forall k, (0 <= Math_random Fixture.rt k)%Q
                        /\ (Math_random Fixture.rt k < 1)%Q).
  { intros k. simpl. destruct (Nat.even k); split; unfold Qle, Qlt; simpl; lia. }
  split; [exact R |].
  exact (proj2 (proj2 (evaluate_one_contribution_per_appliance Fixture.rt R
                         (mkScenario "kitchen"
                            (mkHousehold EU (mkTimeWindow 0%Z 0%Z) Fixture.catalog))
                         (Fixture.world [])))).
Defined.

Example evaluate_kitchen :
  map c_value
      (fst (evaluate Fixture.rt
              (mkScenario "kitchen"
                 (mkHousehold EU (mkTimeWindow 0%Z 0%Z) Fixture.catalog))
              (Fixture.world [])))
  = [0%Q; 100%Q].
Proof. reflexivity. Qed.

(* ================================================================= *)
(** ** The schema on the fields of a record *)

Lemma z_string_trim_min1 :
  forall (s : string) (path : list PathSeg),
    trim s <> "" ->
    z_string [check_trim; check_min 1] (Some (JStr s)) path = success (trim s).
Proof.
  intros s path H. unfold z_string. cbn [run_string_checks].
  destruct (trim s) as [| c r]; [contradiction | reflexivity].
Qed.

Lemma z_number_min_accepts :
  forall (q : Q) (path : list PathSeg),
    (0 <= q)%Q -> z_number_min 0 (Some (JNum q)) path = success q.
Proof.
  intros q path H. unfold z_number_min.
  apply Qle_bool_iff in H. rewrite H. reflexivity.
Qed.

Lemma z_number_min_refuses :
  forall (q : Q) (path : list PathSeg),
    (q < 0)%Q ->
    z_number_min 0 (Some (JNum q)) path = failure [mkIssue too_small path].
Proof.
  intros q path H. unfold z_number_min.
  destruct (Qle_bool 0 q) eqn:E; [| reflexivity].
  apply Qle_bool_iff in E. exfalso. exact (Qlt_not_le _ _ H E).
Qed.

Lemma z_nativeEnum_accepts :
  forall (mode : UsageMode) (path : list PathSeg),
    z_nativeEnum_UsageMode (Some (JStr (UsageMode_value mode))) path
    = success mode.
Proof. intros [] path; reflexivity. Qed.

Lemma z_nativeEnum_refuses :
  forall (v : json) (path : list PathSeg),
    v <> JStr "ALWAYS_ON" -> v <> JStr "ON_DEMAND" ->
    exists code,
      z_nativeEnum_UsageMode (Some v) path = failure [mkIssue code path].
Proof.
  intros v path H1 H2. destruct v; try (eexists; reflexivity).
  unfold z_nativeEnum_UsageMode.
  destruct (String.eqb s (UsageMode_value ALWAYS_ON)) eqn:E1.
  - apply String.eqb_eq in E1. subst s. contradiction H1. reflexivity.
  - destruct (String.eqb s (UsageMode_value ON_DEMAND)) eqn:E2;
      [| eexists; reflexivity].
    apply String.eqb_eq in E2. subst s. contradiction H2. reflexivity.
Qed.

Lemma z_optional_record_accepts :
  forall (parameters : option (list (string * json))) (path : list PathSeg),
    z_optional z_record_any (option_map JObj parameters) path
    = success (option_map mergeObjectSync parameters).
Proof. intros [props |] path; reflexivity. Qed.

Lemma UsageMode_value_injective :
  forall m1 m2, UsageMode_value m1 = UsageMode_value m2 -> m1 = m2.
Proof. intros [] []; simpl; intros H; try reflexivity; discriminate. Qed.

(** The fields of a record are determined by the record. *)
Lemma is_record_functional :
  forall e n1 p1 e1 m1 ps1 n2 p2 e2 m2 ps2,
    is_record e n1 p1 e1 m1 ps1 ->
    is_record e n2 p2 e2 m2 ps2 ->
    n1 = n2 /\ p1 = p2 /\ e1 = e2 /\ m1 = m2 /\ ps1 = ps2.
Proof.
  intros e n1 p1 e1 m1 ps1 n2 p2 e2 m2 ps2
         (props & -> & Hn & Hp & He & Hm & Hps)
         (props' & E & Hn' & Hp' & He' & Hm' & Hps').
  inversion E; subst props'; clear E.
  rewrite Hn in Hn'. rewrite Hp in Hp'. rewrite He in He'.
  rewrite Hm in Hm'. rewrite Hps in Hps'.
  inversion Hn'. inversion Hp'. inversion He'. inversion Hm' as [Hv].
  apply UsageMode_value_injective in Hv.
  repeat split; try assumption.
  destruct ps1, ps2; simpl in Hps'; congruence.
Qed.

(* ----------------------------------------------------------------- *)
(** *** The parameters map *)

Lemma Map_set_fresh :
  forall (m : list (string * json)) (key : string) (v : json),
    ~ In key (map fst m) -> Map_set m key v = (m ++ [(key, v)])%list.
Proof.
  induction m as [| [k x] m IH]; intros key v H.
  - reflexivity.
  - simpl in *. destruct (String.eqb k key) eqn:E.
    + apply String.eqb_eq in E. exfalso. apply H. left. exact E.
    + rewrite IH; [reflexivity |]. intros Hin. apply H. right. exact Hin.
Qed.

Lemma fold_Map_set_distinct :
  forall (props acc : list (string * json)),
    NoDup (map fst (acc ++ props)) ->
    fold_left (fun m kv => Map_set m (fst kv) (snd kv)) props acc
    = (acc ++ props)%list.
Proof.
  induction props as [| [k v] props IH]; intros acc H.
  - simpl. rewrite app_nil_r. reflexivity.
  - cbn [fold_left fst snd].
    assert (Hfresh : ~ In k (map fst acc)).
    { rewrite map_app in H. apply NoDup_remove_2 in H.
      intros Hin. apply H. apply in_or_app. left. exact Hin. }
    rewrite (Map_set_fresh acc k v Hfresh).
    rewrite IH; rewrite <- app_assoc; [reflexivity | exact H].
Qed.

(** Leaving the key [__proto__] out keeps distinct keys distinct. *)
Lemma mergeObjectSync_distinct :
  forall parameters,
    distinct_keys parameters ->
    distinct_keys (option_map mergeObjectSync parameters).
Proof.
  intros [props |] H; [| exact I]. cbn in *. unfold mergeObjectSync.
  induction props as [| [k v] props IH]; [constructor |].
  cbn in *. inversion H as [| ? ? Hk Hr]; subst.
  destruct (negb (String.eqb k "__proto__")); [| exact (IH Hr)].
  cbn. constructor; [| exact (IH Hr)].
  intros Hin. apply Hk. apply in_map_iff in Hin.
  destruct Hin as ([k' v'] & Ek & Hin). cbn in Ek. subst k'.
  apply filter_In in Hin. destruct Hin as [Hin _].
  apply in_map_iff. exists (k, v'). split; [reflexivity | exact Hin].
Qed.

(** An object with distinct keys becomes the map of its properties, in
    their order; no object becomes the empty map. *)
Lemma parametersMap_distinct :
  forall parameters,
    distinct_keys parameters ->
    parametersMap parameters = match parameters with
                               | Some props => props
                               | None => []
                               end.
Proof.
  intros [props |] H; [| reflexivity].
  unfold parametersMap. apply (fold_Map_set_distinct props []). exact H.
Qed.

(* ----------------------------------------------------------------- *)
(** *** Valid and offending records *)

Lemma ApplianceSchema_accepts :
  forall (e : json) (path : list PathSeg) name power emissions mode parameters,
    is_record e name power emissions mode parameters ->
    trim name <> "" -> (0 <= power)%Q -> (0 <= emissions)%Q ->
    ApplianceSchema (Some e) path
    = success (mkApplianceData (trim name) power emissions mode
                 (option_map mergeObjectSync parameters)).
Proof.
  intros e path name power emissions mode parameters
         (props & -> & Hn & Hp & He & Hm & Hps) Hname Hpower Hemissions.
  unfold ApplianceSchema. rewrite Hn, Hp, He, Hm, Hps.
  rewrite (z_string_trim_min1 _ _ Hname).
  rewrite (z_number_min_accepts _ _ Hpower).
  rewrite (z_number_min_accepts _ _ Hemissions).
  rewrite z_nativeEnum_accepts, z_optional_record_accepts. reflexivity.
Qed.

Lemma ApplianceSchema_refuses :
  forall (e : json) (path : list PathSeg),
    offending_record e -> exists issues, ApplianceSchema (Some e) path = failure issues.
Proof.
  intros e path (props & -> & H). unfold ApplianceSchema.
  destruct H as [(q & Hq & Hneg) | [(q & Hq & Hneg) | (v & Hv & H1 & H2)]].
  - rewrite Hq, (z_number_min_refuses _ _ Hneg).
    destruct (z_string _ _ _); eexists; reflexivity.
  - rewrite Hq, (z_number_min_refuses _ _ Hneg).
    destruct (z_string _ _ _); destruct (z_number_min _ _ _);
      eexists; reflexivity.
  - destruct (z_nativeEnum_refuses v (path ++ [Key "usageMode"])%list H1 H2)
      as [code Ecode].
    rewrite Hv, Ecode.
    destruct (z_string _ _ _); destruct (z_number_min _ _ _);
      destruct (z_number_min _ _ _); eexists; reflexivity.
Qed.

Lemma z_array_items_accepts :
  forall (entries : list json) (i : nat) (path : list PathSeg),
    Forall valid_record entries ->
    exists validatedData,
      z_array_items ApplianceSchema entries i path = success validatedData /\
      Forall2 loaded_from entries (map toAppliance validatedData).
Proof.
  induction entries as [| e entries IH]; intros i path H.
  - exists []. split; [reflexivity | constructor].
  - inversion H as [| ? ? He Hes]; subst.
    destruct He as (name & power & emissions & mode & parameters
                    & Hrec & Hname & Hpower & Hemissions & Hkeys).
    destruct (IH (S i) path Hes) as (ds & Eds & Hds).
    eexists. split.
    + cbn [z_array_items].
      rewrite (ApplianceSchema_accepts _ _ _ _ _ _ _ Hrec Hname Hpower Hemissions).
      rewrite Eds. reflexivity.
    + cbn [map]. constructor; [| exact Hds].
      intros n p em u ps Hrec'.
      destruct (is_record_functional _ _ _ _ _ _ _ _ _ _ _ Hrec Hrec')
        as (<- & <- & <- & <- & <-).
      unfold toAppliance. cbn.
      rewrite (parametersMap_distinct _ (mergeObjectSync_distinct _ Hkeys)).
      destruct parameters; repeat split.
Qed.

Lemma z_array_items_refuses :
  forall (entries : list json) (i : nat) (path : list PathSeg),
    Exists offending_record entries ->
    exists issues, z_array_items ApplianceSchema entries i path = failure issues.
Proof.
  induction entries as [| e entries IH]; intros i path H.
  - inversion H.
  - cbn [z_array_items]. inversion H as [? ? He | ? ? Hes]; subst.
    + destruct (ApplianceSchema_refuses e (path ++ [Idx i])%list He) as [iss E].
      rewrite E. eexists. reflexivity.
    + destruct (IH (S i) path Hes) as [iss E]. rewrite E.
      destruct (ApplianceSchema _ _); eexists; reflexivity.
Qed.

(* ================================================================= *)
(** ** The loader on a file that parses *)

Section LoaderProperties.

Context (rt : Runtime).

(** C2, amended. For a catalog file whose content is an array of valid
    records, the loader returns one appliance per record, in the order of
    the records; each appliance has the power consumption, the embodied
    emissions and the usage mode of its record, its name is the name of the
    record without the white space around it, and its parameters are the
    parameters of the record, in their order, without a key [__proto__]:
    the empty map when the record has no parameters. *)
Theorem loadAppliancesFromFile_valid_catalog :
  forall (path text : string) (entries : list json),
    Bun_file_text rt path = Fulfilled text ->
    JSON_parse rt text = inr (JArr entries) ->
    Forall valid_record entries ->
    exists appliances,
      loadAppliancesFromFile rt path = Fulfilled appliances /\
      List.length appliances = List.length entries /\
      Forall2 loaded_from entries appliances.
Proof.
  intros path text entries Hread Hparse Hvalid.
  destruct (z_array_items_accepts entries 0 [] Hvalid) as (ds & Eds & Hds).
  exists (map toAppliance ds). split; [| split].
  - unfold loadAppliancesFromFile. rewrite Hread. cbn.
    rewrite Hparse. unfold safeParse, AppliancesSchema, z_array.
    rewrite Eds. reflexivity.
  - symmetry. exact (Forall2_length Hds).
  - exact Hds.
Qed.

(** C3. For a catalog file that parses to an array with an offending
    record, the loader throws the schema validation error, and so it
    returns no list of appliances. *)
Theorem loadAppliancesFromFile_offending_record :
  forall (path text : string) (entries : list json),
    Bun_file_text rt path = Fulfilled text ->
    JSON_parse rt text = inr (JArr entries) ->
    Exists offending_record entries ->
    (exists e, loadAppliancesFromFile rt path = Rejected e
               /\ SchemaValidationError e) /\
    (forall appliances, loadAppliancesFromFile rt path <> Fulfilled appliances).
Proof.
  intros path text entries Hread Hparse Hbad.
  destruct (z_array_items_refuses entries 0 [] Hbad) as (iss & E).
  assert (L : loadAppliancesFromFile rt path
              = Rejected (new_Error ("Zod validation error:"
                                       ++ ZodError_message rt iss) None)).
  { unfold loadAppliancesFromFile. rewrite Hread. cbn.
    rewrite Hparse. unfold safeParse, AppliancesSchema, z_array.
    rewrite E. reflexivity. }
  split.
  - eexists. split; [exact L |]. exists (ZodError_message rt iss). reflexivity.
  - intros appliances. rewrite L. discriminate.
Qed.

End LoaderProperties.

(** A name that has no white space at either end is kept as it is. *)
Lemma reverse_reverse :
  forall s acc, reverse (reverse s acc) "" = reverse acc s.
Proof.
  induction s as [| c s IH]; intros acc.
  - reflexivity.
  - cbn [reverse]. rewrite IH. reflexivity.
Qed.

Lemma trim_idle :
  forall s,
    trimStart s = s ->
    trimStart (reverse s "") = reverse s "" ->
    trim s = s.
Proof.
  intros s H1 H2. unfold trim, trimEnd. rewrite H1, H2.
  apply (reverse_reverse s "").
Qed.

(** The records of the fixture files. *)
Lemma fixture_record_valid :
  forall name power emissions mode,
    trim name <> "" -> (0 <= power)%Q -> (0 <= emissions)%Q ->
    valid_record (Fixture.record_json name power emissions (UsageMode_value mode)).
Proof.
  intros name power emissions mode Hn Hp He.
  exists name, power, emissions, mode, None.
  split; [| repeat split; assumption].
  eexists. split; [reflexivity |]. repeat split.
Qed.

Lemma loadAppliancesFromFile_valid_catalog_witness :
  Bun_file_text Fixture.rt "./appliances.json" = Fulfilled Fixture.appliances_text /\
  JSON_parse Fixture.rt Fixture.appliances_text
    = inr (JArr [Fixture.record_json "Fridge" 150 50 "ALWAYS_ON"; Fixture.kettle_json]) /\
  Forall valid_record
         [Fixture.record_json "Fridge" 150 50 "ALWAYS_ON"; Fixture.kettle_json] /\
  exists appliances,
    loadAppliancesFromFile Fixture.rt "./appliances.json" = Fulfilled appliances /\
    List.length appliances = 2 /\
    Forall2 loaded_from
            [Fixture.record_json "Fridge" 150 50 "ALWAYS_ON"; Fixture.kettle_json]
            appliances.
Proof.
  assert (V : Forall valid_record
                [Fixture.record_json "Fridge" 150 50 "ALWAYS_ON"; Fixture.kettle_json]).
  { constructor; [| constructor; [| constructor]].
    - apply (fixture_record_valid "Fridge" 150 50 ALWAYS_ON);
        [discriminate | unfold Qle; simpl; lia | unfold Qle; simpl; lia].
    - exists "Kettle", 2000%Q, 12%Q, ON_DEMAND, (Some Fixture.kettle_parameters).
      split; [eexists; split; [reflexivity |]; repeat split |].
      split; [discriminate |].
      split; [unfold Qle; simpl; lia |].
      split; [unfold Qle; simpl; lia |].
      simpl. repeat constructor; simpl; intuition discriminate. }
  split; [reflexivity |]. split; [reflexivity |]. split; [exact V |].
  exact (loadAppliancesFromFile_valid_catalog Fixture.rt "./appliances.json"
           Fixture.appliances_text _ eq_refl eq_refl V).
Defined.

Example load_appliances_json :
  loadAppliancesFromFile Fixture.rt "./appliances.json"
  = Fulfilled Fixture.catalog.
Proof. vm_compute. reflexivity. Qed.

(** A record whose name has spaces around it is valid, and the appliance
    made from it is named [Fridge], not [ Fridge ]. *)
Lemma padded_name_is_not_kept :
  Bun_file_text Fixture.rt "./padded.json" = Fulfilled Fixture.padded_text /\
  JSON_parse Fixture.rt Fixture.padded_text
    = inr (JArr [Fixture.record_json " Fridge " 150 50 "ALWAYS_ON"]) /\
  Forall valid_record [Fixture.record_json " Fridge " 150 50 "ALWAYS_ON"] /\
  is_record (Fixture.record_json " Fridge " 150 50 "ALWAYS_ON")
            " Fridge " 150 50 ALWAYS_ON None /\
  exists a,
    loadAppliancesFromFile Fixture.rt "./padded.json" = Fulfilled [a] /\
    a_name a = "Fridge" /\
    a_name a <> " Fridge ".
Proof.
  split; [reflexivity |]. split; [reflexivity |].
  split.
  { constructor; [| constructor].
    apply (fixture_record_valid " Fridge " 150 50 ALWAYS_ON);
      [vm_compute; discriminate | unfold Qle; simpl; lia | unfold Qle; simpl; lia]. }
  split.
  { eexists. split; [reflexivity |]. repeat split. }
  exists (mkAppliance "Fridge" 150 50 ALWAYS_ON []).
  split; [vm_compute; reflexivity |].
  split; [reflexivity | discriminate].
Qed.

(** C2 as the specification words it fails at a valid record whose name
    has spaces around it and whose parameters have a key [__proto__]: the
    appliance is named [Fridge], not [ Fridge ], and its parameters are
    [a] and [b] only. *)
Lemma padded_name_and_proto_key_are_not_kept :
  Bun_file_text Fixture.rt_proto "./proto.json" = Fulfilled Fixture.proto_text /\
  JSON_parse Fixture.rt_proto Fixture.proto_text
    = inr (JArr [Fixture.proto_record]) /\
  Forall valid_record [Fixture.proto_record] /\
  is_record Fixture.proto_record " Fridge " 150 50 ALWAYS_ON
            (Some Fixture.proto_parameters) /\
  exists a,
    loadAppliancesFromFile Fixture.rt_proto "./proto.json" = Fulfilled [a] /\
    a_name a = "Fridge" /\
    a_name a <> " Fridge " /\
    a_parameters a = [("a", JNum 1); ("b", JNum 2)] /\
    a_parameters a <> Fixture.proto_parameters.
Proof.
  assert (R : is_record Fixture.proto_record " Fridge " 150 50 ALWAYS_ON
                        (Some Fixture.proto_parameters)).
  { eexists. split; [reflexivity |]. repeat split. }
  split; [reflexivity |]. split; [reflexivity |].
  split.
  { constructor; [| constructor].
    exists " Fridge ", 150%Q, 50%Q, ALWAYS_ON, (Some Fixture.proto_parameters).
    split; [exact R |].
    split; [vm_compute; discriminate |].
    split; [unfold Qle; simpl; lia |].
    split; [unfold Qle; simpl; lia |].
    simpl. repeat constructor; simpl; intuition discriminate. }
  split; [exact R |].
  exists (mkAppliance "Fridge" 150 50 ALWAYS_ON [("a", JNum 1); ("b", JNum 2)]).
  split; [vm_compute; reflexivity |].
  split; [reflexivity |]. split; [discriminate |].
  split; [reflexivity | discriminate].
Qed.

Lemma loadAppliancesFromFile_offending_record_witness :
  Bun_file_text Fixture.rt "./negative.json" = Fulfilled Fixture.negative_text /\
  JSON_parse Fixture.rt Fixture.negative_text
    = inr (JArr [Fixture.record_json "Fridge" 150 50 "ALWAYS_ON";
                 Fixture.record_json "Heater" (-1) 30 "ON_DEMAND"]) /\
  Exists offending_record
         [Fixture.record_json "Fridge" 150 50 "ALWAYS_ON";
          Fixture.record_json "Heater" (-1) 30 "ON_DEMAND"] /\
  exists e, loadAppliancesFromFile Fixture.rt "./negative.json" = Rejected e
            /\ SchemaValidationError e.
Proof.
  assert (B : Exists offending_record
                [Fixture.record_json "Fridge" 150 50 "ALWAYS_ON";
                 Fixture.record_json "Heater" (-1) 30 "ON_DEMAND"]).
  { apply Exists_cons_tl. apply Exists_cons_hd.
    eexists. split; [reflexivity |]. left.
    exists (-1)%Q. split; [reflexivity | unfold Qlt; simpl; lia]. }
  split; [reflexivity |]. split; [reflexivity |]. split; [exact B |].
  exact (proj1 (loadAppliancesFromFile_offending_record Fixture.rt
                  "./negative.json" Fixture.negative_text _ eq_refl eq_refl B)).
Defined.

Example load_negative_json :
  loadAppliancesFromFile Fixture.rt "./negative.json"
  = Rejected (mkError "Zod validation error:1 issue(s)" None).
Proof. vm_compute. reflexivity. Qed.

(** For a record whose name has no white space around it the name is the
    record's. *)
Lemma loaded_name_kept_when_trimmed :
  forall e a name power emissions mode parameters,
    loaded_from e a ->
    is_record e name power emissions mode parameters ->
    trimStart name = name ->
    trimStart (reverse name "") = reverse name "" ->
    a_name a = name.
Proof.
  intros e a name power emissions mode parameters Hl Hr H1 H2.
  destruct (Hl _ _ _ _ _ Hr) as [Hn _]. rewrite Hn. apply trim_idle; assumption.
Qed.

(* ================================================================= *)
(** ** [edit_scenario] *)

Section Edit.

Context (rt : Runtime).

Lemma log_entries_stdin :
  forall (A : Type) (toString : A -> string) (l : list A) (index : nat) (w : World),
    stdin (snd (log_entries toString l index w)) = stdin w.
Proof.
  intros A toString. induction l as [| x l IH]; intros index w.
  - reflexivity.
  - cbn [log_entries]. unfold bind, console_log, emit.
    rewrite IH. reflexivity.
Qed.

Lemma listScenarios_stdin :
  forall this w, stdin (snd (listScenarios rt this w)) = stdin w.
Proof.
  intros this w. unfold listScenarios.
  destruct (List.length (_scenarios this) =? 0)%nat; [reflexivity |].
  unfold bind, console_log, emit. rewrite log_entries_stdin. reflexivity.
Qed.

Lemma listAppliances_stdin :
  forall this w, stdin (snd (listAppliances rt this w)) = stdin w.
Proof.
  intros this w. unfold listAppliances.
  destruct (List.length (_possibleAppliances this) =? 0)%nat; [reflexivity |].
  unfold bind, console_log, emit. rewrite log_entries_stdin. reflexivity.
Qed.

Lemma prompt_answer :
  forall msg dflt w x r,
    stdin w = x :: r ->
    exists w', prompt msg dflt w = (x, w') /\ stdin w' = r.
Proof.
  intros msg dflt w x r H. unfold prompt. rewrite H.
  eexists. split; reflexivity.
Qed.

Lemma findIndex_Exists :
  forall (input : string) (l : list Scenario),
    Exists (fun s => s_name s = input) l ->
    exists i original,
      findIndex (fun s => String.eqb (s_name s) input) l = Some i /\
      nth_error l i = Some original /\
      s_name original = input.
Proof.
  intros input. induction l as [| s l IH]; intros H.
  - inversion H.
  - cbn [findIndex]. destruct (String.eqb (s_name s) input) eqn:E.
    + apply String.eqb_eq in E. exists 0, s. repeat split. exact E.
    + inversion H as [? ? Hs | ? ? Hl]; subst.
      * apply String.eqb_neq in E. contradiction.
      * destruct (IH Hl) as (i & original & Ei & En & Eo).
        exists (S i), original. rewrite Ei. repeat split; assumption.
Qed.

Lemma getScenarioName_answer :
  forall original w x r,
    stdin w = x :: r ->
    exists w',
      getScenarioName original w = (name_of_answer x (s_name original), w') /\
      stdin w' = r.
Proof.
  intros original w x r H. unfold getScenarioName, bind.
  destruct (prompt_answer "Enter a new name for the scenario:"
              (Some (s_name original)) w x r H) as (w' & E & S').
  rewrite E. exists w'. split; [| exact S'].
  destruct x as [[| c n] |]; reflexivity.
Qed.

Lemma getRegion_answer :
  forall w x r,
    stdin w = x :: r ->
    exists w', getRegion w = (region_of_answer x, w') /\ stdin w' = r.
Proof.
  intros w x r H. unfold getRegion, bind, console_log, emit.
  match goal with
  | |- context [prompt ?msg None ?w0] =>
      destruct (prompt_answer msg None w0 x r H) as (w' & E & S')
  end.
  rewrite E. exists w'. split; [| exact S']. unfold ret. f_equal.
  destruct x as [s |]; [| reflexivity].
  destruct (String.eqb s "") eqn:E0.
  { apply String.eqb_eq in E0. subst s. reflexivity. }
  destruct (String.eqb s "1") eqn:E1.
  { apply String.eqb_eq in E1. subst s. reflexivity. }
  destruct (String.eqb s "2") eqn:E2.
  { apply String.eqb_eq in E2. subst s. reflexivity. }
  destruct (String.eqb s "3") eqn:E3.
  { apply String.eqb_eq in E3. subst s. reflexivity. }
  apply String.eqb_neq in E1, E2, E3.
  destruct s as [| c s0]; [reflexivity |].
  destruct c as [[] [] [] [] [] [] [] []]; destruct s0; try reflexivity;
    exfalso; first [ apply E1; reflexivity
                   | apply E2; reflexivity
                   | apply E3; reflexivity ].
Qed.

(** Runs the prompts of [getTimeWindow] as far as the answers are known. *)
Ltac steps :=
  cbv beta iota zeta
      delta [getTimeWindow bind console_log emit today new_Date
             prompt_required prompt ret falsy
             stdin console clock_reads random_reads].

Lemma getTimeWindow_answers :
  forall w sd st ed et startDate endDate r,
    stdin w = Some sd :: Some st :: Some ed :: Some et :: r ->
    sd <> "" -> st <> "" -> ed <> "" -> et <> "" ->
    Date_parse rt (sd ++ "T" ++ st) = Some startDate ->
    Date_parse rt (ed ++ "T" ++ et) = Some endDate ->
    exists w',
      getTimeWindow rt w = (Some (mkTimeWindow startDate endDate), w') /\
      stdin w' = r.
Proof.
  intros w sd st ed et startDate endDate r H Hsd Hst Hed Het Hs He.
  destruct w as [input out clock rnd]. cbn [stdin] in H. subst input.
  apply String.eqb_neq in Hsd, Hst, Hed, Het.
  steps. rewrite Hsd. steps. rewrite Hst. steps. rewrite Hed. steps.
  rewrite Het. steps. rewrite Hs, He.
  eexists. split; reflexivity.
Qed.

(** What the loop selects does not depend on what was printed before, and
    it extends what was selected before. *)
Lemma getAppliances_loop_selection :
  forall possibleAppliances input selected out,
    fst (fst (getAppliances_loop rt possibleAppliances input selected out))
    = (selected ++ selection rt possibleAppliances input)%list.
Proof.
  intros possibleAppliances. unfold selection.
  induction input as [| x input IH]; intros selected out.
  - cbn. rewrite app_nil_r. reflexivity.
  - cbn [getAppliances_loop]. destruct x as [text |].
    + destruct (String.eqb text "" || String.eqb (toLowerCase text) "done").
      * cbn. rewrite app_nil_r. reflexivity.
      * destruct (match option_map _ (parseInt text) with
                  | Some i => _ | None => None end) as [a |].
        -- rewrite IH, <- app_assoc. f_equal. symmetry.
           apply (IH ([] ++ [a])%list).
        -- rewrite IH. f_equal. symmetry. apply (IH []).
    + cbn. rewrite app_nil_r. reflexivity.
Qed.

(** Every selected appliance is an appliance of the catalog. *)
Lemma selection_from_catalog :
  forall possibleAppliances input,
    Forall (fun a => In a possibleAppliances)
           (selection rt possibleAppliances input).
Proof.
  intros possibleAppliances. unfold selection.
  induction input as [| x input IH].
  - constructor.
  - cbn [getAppliances_loop]. destruct x as [text |]; [| constructor].
    destruct (String.eqb text "" || String.eqb (toLowerCase text) "done");
      [constructor |].
    destruct (match option_map _ (parseInt text) with
              | Some i => _ | None => None end) as [a |] eqn:E.
    + rewrite getAppliances_loop_selection. apply Forall_app. split.
      * constructor; [| constructor].
        destruct (option_map _ (parseInt text)) as [i |]; [| discriminate].
        destruct ((i <? 0) || _)%Z; [discriminate |].
        apply nth_error_In in E. exact E.
      * exact IH.
    + rewrite getAppliances_loop_selection. exact IH.
Qed.

End Edit.

Section EditAppends.

Context (rt : Runtime).

Lemma Exists_length_nonzero :
  forall (A : Type) (P : A -> Prop) (l : list A),
    Exists P l -> (List.length l =? 0)%nat = false.
Proof. intros A P l H. destruct H; reflexivity. Qed.

(** The run of a complete edit with a catalog that is not empty. *)
Lemma editScenario_complete :
  forall this w input newName sd st ed et startDate endDate regionInput rest,
    edit_answers_succeed rt this w input newName sd st ed et
      startDate endDate regionInput rest ->
    _possibleAppliances this <> [] ->
    fst (editScenario rt this w)
    = mkApp (_possibleAppliances this)
            (_scenarios this
               ++ [edited rt this input newName startDate endDate regionInput rest])%list.
Proof.
  intros this w input newName sd st ed et startDate endDate regionInput rest
         (Hin & Hinput & Hsd & Hst & Hed & Het & Hex & Hs & He) Hcat.
  unfold editScenario. unfold bind at 1.
  pose proof (listScenarios_stdin rt this w) as S1.
  destruct (listScenarios rt this w) as [[] w1]. cbn [snd] in S1.
  rewrite (Exists_length_nonzero _ _ _ Hex).
  rewrite Hin in S1.
  destruct (prompt_answer "Enter the name of the scenario to edit:" None
              w1 _ _ S1) as (w2 & E2 & S2).
  unfold bind at 1. rewrite E2.
  apply String.eqb_neq in Hinput. rewrite Hinput.
  destruct (findIndex_Exists input (_scenarios this) Hex)
    as (i & original & Ei & En & Eo).
  rewrite Ei, En.
  destruct (getScenarioName_answer original w2 _ _ S2) as (w3 & E3 & S3).
  unfold bind at 1. rewrite E3.
  destruct (getTimeWindow_answers rt w3 sd st ed et startDate endDate _
              S3 Hsd Hst Hed Het Hs He) as (w4 & E4 & S4).
  unfold bind at 1. rewrite E4.
  destruct (getRegion_answer w4 _ _ S4) as (w5 & E5 & S5).
  unfold bind at 1. rewrite E5.
  unfold bind at 1.
  pose proof (listAppliances_stdin rt this w5) as S6.
  destruct (listAppliances rt this w5) as [[] w6]. cbn [snd] in S6.
  rewrite S5 in S6.
  assert (Hlen : (List.length (_possibleAppliances this) =? 0)%nat = false).
  { destruct (_possibleAppliances this); [contradiction | reflexivity]. }
  rewrite Hlen.
  unfold bind, console_log, emit, getAppliances, ret.
  cbn [stdin console clock_reads random_reads]. rewrite S6.
  pose proof (getAppliances_loop_selection rt (_possibleAppliances this) rest []
                (console w6 ++ [Log (nl ++ "Add appliances to the scenario (enter 'done' when finished):")])%list)
    as Hsel.
  destruct (getAppliances_loop rt (_possibleAppliances this) rest [] _)
    as [[selected r] out].
  cbn [fst] in Hsel |- *. cbn [app] in Hsel. subst selected.
  unfold edited. rewrite Eo. reflexivity.
Qed.

(** C6, amended. When the named scenario exists, every prompt up to the
    region succeeds and the catalog is not empty, [edit_scenario] appends
    exactly one scenario, built from the collected name, time window,
    region and appliance selection; the scenarios that were in the list,
    the original among them, stay what and where they were, the catalog is
    unchanged and the list is one longer. *)
Theorem editScenario_appends_one_scenario :
  forall this w input newName sd st ed et startDate endDate regionInput rest,
    edit_answers_succeed rt this w input newName sd st ed et
      startDate endDate regionInput rest ->
    _possibleAppliances this <> [] ->
    let this' := fst (editScenario rt this w) in
    _possibleAppliances this' = _possibleAppliances this /\
    _scenarios this'
    = (_scenarios this
         ++ [edited rt this input newName startDate endDate regionInput rest])%list /\
    List.length (_scenarios this') = S (List.length (_scenarios this)) /\
    (forall i s, nth_error (_scenarios this) i = Some s ->
                 nth_error (_scenarios this') i = Some s) /\
    Forall (fun a => In a (_possibleAppliances this))
           (h_appliances (s_household
              (edited rt this input newName startDate endDate regionInput rest))).
Proof.
  intros this w input newName sd st ed et startDate endDate regionInput rest
         Hans Hcat.
  cbn zeta.
  rewrite (editScenario_complete this w input newName sd st ed et
             startDate endDate regionInput rest Hans Hcat).
  cbn [_possibleAppliances _scenarios].
  split; [reflexivity |]. split; [reflexivity |]. split; [| split].
  - rewrite length_app. cbn [List.length]. lia.
  - intros i s H. rewrite nth_error_app1; [exact H |].
    apply nth_error_Some. rewrite H. discriminate.
  - apply selection_from_catalog.
Qed.

End EditAppends.

Lemma fixture_edit_answers_succeed :
  forall possibleAppliances rest,
    edit_answers_succeed Fixture.rt
      (mkApp possibleAppliances [Fixture.scenario1])
      (Fixture.world (Fixture.edit_answers ++ rest)%list)
      "scenario-1" (Some "kitchen") "2024-01-01" "00:00" "2024-01-02" "23:59"
      1704067200000%Z 1704239940000%Z (Some "2") rest.
Proof.
  intros possibleAppliances rest. unfold edit_answers_succeed.
  split; [reflexivity |].
  repeat (split; [discriminate |]).
  split; [| split; reflexivity].
  apply Exists_cons_hd. reflexivity.
Qed.

Lemma editScenario_appends_one_scenario_witness :
  edit_answers_succeed Fixture.rt
    (mkApp Fixture.catalog [Fixture.scenario1])
    (Fixture.world (Fixture.edit_answers ++ [Some "2"; Some "done"])%list)
    "scenario-1" (Some "kitchen") "2024-01-01" "00:00" "2024-01-02" "23:59"
    1704067200000%Z 1704239940000%Z (Some "2") [Some "2"; Some "done"] /\
  _possibleAppliances (mkApp Fixture.catalog [Fixture.scenario1]) <> [] /\
  _scenarios
    (fst (editScenario Fixture.rt (mkApp Fixture.catalog [Fixture.scenario1])
            (Fixture.world (Fixture.edit_answers ++ [Some "2"; Some "done"])%list)))
  = [Fixture.scenario1;
     mkScenario "kitchen"
       (mkHousehold EU (mkTimeWindow 1704067200000%Z 1704239940000%Z)
          [Fixture.kettle])].
Proof.
  split; [apply fixture_edit_answers_succeed |].
  split; [discriminate |].
  exact (proj1 (proj2
    (editScenario_appends_one_scenario Fixture.rt
       (mkApp Fixture.catalog [Fixture.scenario1])
       (Fixture.world (Fixture.edit_answers ++ [Some "2"; Some "done"])%list)
       "scenario-1" (Some "kitchen") "2024-01-01" "00:00" "2024-01-02" "23:59"
       1704067200000%Z 1704239940000%Z (Some "2") [Some "2"; Some "done"]
       (fixture_edit_answers_succeed Fixture.catalog [Some "2"; Some "done"])
       ltac:(discriminate)))).
Defined.

(** C6 as the specification words it fails when the catalog is empty: the
    named scenario exists and every prompt up to the region succeeds, and
    the handler appends nothing. *)
Lemma editScenario_empty_catalog_appends_nothing :
  let this := mkApp [] [Fixture.scenario1] in
  let w := Fixture.world (Fixture.edit_answers ++ [Some "done"])%list in
  edit_answers_succeed Fixture.rt this w
    "scenario-1" (Some "kitchen") "2024-01-01" "00:00" "2024-01-02" "23:59"
    1704067200000%Z 1704239940000%Z (Some "2") [Some "done"] /\
  _scenarios (fst (editScenario Fixture.rt this w)) = [Fixture.scenario1] /\
  List.length (_scenarios (fst (editScenario Fixture.rt this w)))
  <> S (List.length (_scenarios this)).
Proof.
  cbn zeta. split; [apply (fixture_edit_answers_succeed [] [Some "done"]) |].
  split; [vm_compute; reflexivity | vm_compute; discriminate].
Qed.

(* ================================================================= *)
(** ** The schema: what it accepts, and what the loader then returns *)

Lemma z_string_trim_min1_inv :
  forall v path n,
    z_string [check_trim; check_min 1] v path = success n ->
    exists s, v = Some (JStr s) /\ trim s <> "" /\ n = trim s.
Proof.
  intros v path n H. destruct v as [[| | | s | |] |]; try discriminate.
  unfold z_string in H. cbn [run_string_checks] in H.
  destruct (trim s) as [| c r] eqn:E; cbn in H; [discriminate |].
  inversion H. exists s. rewrite E. repeat split. discriminate.
Qed.

Lemma z_number_min_inv :
  forall v path q,
    z_number_min 0 v path = success q -> v = Some (JNum q) /\ (0 <= q)%Q.
Proof.
  intros v path q H. destruct v as [[| | q' | | |] |]; try discriminate.
  unfold z_number_min in H. destruct (Qle_bool 0 q') eqn:E; [| discriminate].
  inversion H; subst. split; [reflexivity |]. apply Qle_bool_iff. exact E.
Qed.

Lemma z_nativeEnum_inv :
  forall v path mode,
    z_nativeEnum_UsageMode v path = success mode ->
    v = Some (JStr (UsageMode_value mode)).
Proof.
  intros v path mode H. destruct v as [[| | | s | |] |]; try discriminate.
  unfold z_nativeEnum_UsageMode in H.
  destruct (String.eqb s (UsageMode_value ALWAYS_ON)) eqn:E1.
  - apply String.eqb_eq in E1. inversion H. subst. reflexivity.
  - destruct (String.eqb s (UsageMode_value ON_DEMAND)) eqn:E2; [| discriminate].
    apply String.eqb_eq in E2. inversion H. subst. reflexivity.
Qed.

Lemma z_optional_record_inv :
  forall v path output,
    z_optional z_record_any v path = success output ->
    exists parameters,
      v = option_map JObj parameters /\
      output = option_map mergeObjectSync parameters.
Proof.
  intros v path output H.
  destruct v as [[| | | | | props] |]; try discriminate; inversion H.
  - exists (Some props). split; reflexivity.
  - exists None. split; reflexivity.
Qed.

Lemma ApplianceSchema_inv :
  forall e path d,
    ApplianceSchema (Some e) path = success d -> accepted_record e d.
Proof.
  intros e path d H. destruct e as [| | | | | props]; try discriminate.
  unfold ApplianceSchema in H.
  destruct (z_string _ (get props "name") _) as [n |] eqn:E1;
    [| discriminate].
  destruct (z_number_min _ (get props "powerConsumption") _) as [p |] eqn:E2;
    [| discriminate].
  destruct (z_number_min _ (get props "embodiedEmissions") _) as [em |] eqn:E3;
    [| discriminate].
  destruct (z_nativeEnum_UsageMode (get props "usageMode") _) as [u |] eqn:E4;
    [| discriminate].
  destruct (z_optional _ (get props "parameters") _) as [ps |] eqn:E5;
    [| discriminate].
  inversion H; subst d; clear H.
  apply z_string_trim_min1_inv in E1. destruct E1 as (s & Es & Hs & ->).
  apply z_number_min_inv in E2. destruct E2 as [E2 H2].
  apply z_number_min_inv in E3. destruct E3 as [E3 H3].
  apply z_nativeEnum_inv in E4. apply z_optional_record_inv in E5.
  destruct E5 as (parameters & E5 & ->).
  exists props, s. cbn. repeat split; try assumption.
  exists parameters. split; [exact E5 | reflexivity].
Qed.

Lemma accepted_record_accepted :
  forall e path d,
    accepted_record e d -> ApplianceSchema (Some e) path = success d.
Proof.
  intros e path [n p em u ps]
         (props & name & -> & Hn & Hname & Ed & Hp & Hp0 & He & He0 & Hm
          & parameters & Hps & Eps).
  cbn in *. subst n ps.
  apply (ApplianceSchema_accepts (JObj props) path name p em u parameters);
    try assumption.
  exists props. repeat split; assumption.
Qed.

Lemma z_array_items_inv :
  forall entries i path ds,
    z_array_items ApplianceSchema entries i path = success ds ->
    Forall2 accepted_record entries ds.
Proof.
  induction entries as [| e entries IH]; intros i path ds H.
  - inversion H. constructor.
  - cbn [z_array_items] in H.
    destruct (ApplianceSchema (Some e) _) as [d |] eqn:E; [| discriminate].
    destruct (z_array_items ApplianceSchema entries (S i) path) as [l |] eqn:El;
      [| discriminate].
    inversion H; subst. constructor.
    + exact (ApplianceSchema_inv _ _ _ E).
    + exact (IH _ _ _ El).
Qed.

Lemma z_array_items_accepted :
  forall entries i path ds,
    Forall2 accepted_record entries ds ->
    z_array_items ApplianceSchema entries i path = success ds.
Proof.
  intros entries i path ds H. revert i.
  induction H as [| e d entries ds He _ IH]; intros i.
  - reflexivity.
  - cbn [z_array_items].
    rewrite (accepted_record_accepted _ _ _ He), IH. reflexivity.
Qed.

Section LoaderOutcomes.

Context (rt : Runtime).

Lemma loadAppliancesFromFile_fulfilled_inv_aux :
  forall path appliances,
    loadAppliancesFromFile rt path = Fulfilled appliances ->
    exists entries validatedData,
      Forall2 accepted_record entries validatedData /\
      appliances = map toAppliance validatedData.
Proof.
  intros path appliances H. unfold loadAppliancesFromFile in H.
  destruct (Bun_file_text rt path) as [text | e |] eqn:Er; cbn in H;
    try discriminate.
  destruct (JSON_parse rt text) as [e | v] eqn:Ep; [discriminate |].
  unfold safeParse, AppliancesSchema, z_array in H.
  destruct v as [| | | | entries |]; try discriminate.
  destruct (z_array_items ApplianceSchema entries 0 []) as [ds |] eqn:Ed;
    [| discriminate].
  inversion H; subst. exists entries, ds.
  split; [exact (z_array_items_inv _ _ _ _ Ed) | reflexivity].
Qed.

(** X1. The loader returns a list only when the file was read, its text parsed
    to an array, and the schema accepted every entry; the list then has one
    appliance per entry, in order, made from the schema's output. *)
Theorem loadAppliancesFromFile_fulfilled_inv :
  forall path appliances,
    loadAppliancesFromFile rt path = Fulfilled appliances ->
    exists text entries validatedData,
      Bun_file_text rt path = Fulfilled text /\
      JSON_parse rt text = inr (JArr entries) /\
      Forall2 accepted_record entries validatedData /\
      appliances = map toAppliance validatedData.
Proof.
  intros path appliances H. unfold loadAppliancesFromFile in H.
  destruct (Bun_file_text rt path) as [text | e |] eqn:Er; cbn in H;
    try discriminate.
  destruct (JSON_parse rt text) as [e | v] eqn:Ep; [discriminate |].
  unfold safeParse, AppliancesSchema, z_array in H.
  destruct v as [| | | | entries |]; try discriminate.
  destruct (z_array_items ApplianceSchema entries 0 []) as [ds |] eqn:Ed;
    [| discriminate].
  inversion H; subst. exists text, entries, ds.
  repeat split; try assumption. exact (z_array_items_inv _ _ _ _ Ed).
Qed.

(** X2. For a file that was read and parsed, the loader throws the schema
    validation error exactly when the parsed value is not an array of
    entries that the schema accepts. *)
Theorem loadAppliancesFromFile_schema_error_iff :
  forall path text v,
    Bun_file_text rt path = Fulfilled text ->
    JSON_parse rt text = inr v ->
    ((exists e, loadAppliancesFromFile rt path = Rejected e
                /\ SchemaValidationError e)
     <-> ~ (exists entries validatedData,
              v = JArr entries /\ Forall2 accepted_record entries validatedData)).
Proof.
  intros path text v Hread Hparse.
  assert (L : loadAppliancesFromFile rt path
              = match safeParse AppliancesSchema v with
                | failure issues =>
                    Rejected (new_Error ("Zod validation error:"
                                           ++ ZodError_message rt issues) None)
                | success validatedData =>
                    Fulfilled (map toAppliance validatedData)
                end).
  { unfold loadAppliancesFromFile. rewrite Hread. cbn. rewrite Hparse.
    reflexivity. }
  rewrite L. split.
  - intros (e & He & _) (entries & ds & -> & Hacc).
    unfold safeParse, AppliancesSchema, z_array in He.
    rewrite (z_array_items_accepted entries 0 [] ds Hacc) in He. discriminate.
  - intros Hnot.
    destruct (safeParse AppliancesSchema v) as [ds | iss] eqn:E.
    + exfalso. apply Hnot. unfold safeParse, AppliancesSchema, z_array in E.
      destruct v as [| | | | entries |]; try discriminate.
      exists entries, ds. split; [reflexivity |].
      exact (z_array_items_inv _ _ _ _ E).
    + eexists. split; [reflexivity |].
      exists (ZodError_message rt iss). reflexivity.
Qed.

End LoaderOutcomes.

Lemma loadAppliancesFromFile_fulfilled_inv_witness :
  loadAppliancesFromFile Fixture.rt "./appliances.json"
    = Fulfilled Fixture.catalog /\
  exists text entries validatedData,
    Bun_file_text Fixture.rt "./appliances.json" = Fulfilled text /\
    JSON_parse Fixture.rt text = inr (JArr entries) /\
    Forall2 accepted_record entries validatedData /\
    Fixture.catalog = map toAppliance validatedData.
Proof.
  assert (L : loadAppliancesFromFile Fixture.rt "./appliances.json"
              = Fulfilled Fixture.catalog) by (vm_compute; reflexivity).
  split; [exact L |].
  exact (loadAppliancesFromFile_fulfilled_inv Fixture.rt "./appliances.json"
           Fixture.catalog L).
Defined.

(** A file that holds an object, not an array, is refused. *)
Lemma loadAppliancesFromFile_schema_error_iff_witness :
  let rt := mkRuntime (fun _ => Fulfilled "{}") (fun _ => inr (JObj []))
              (ZodError_message Fixture.rt) (Number_toString Fixture.rt)
              (Date_parse Fixture.rt) (Date_toLocaleString Fixture.rt)
              (Date_toISOString Fixture.rt) (Date_now Fixture.rt)
              (Math_random Fixture.rt) in
  Bun_file_text rt "./appliances.json" = Fulfilled "{}" /\
  JSON_parse rt "{}" = inr (JObj []) /\
  exists e, loadAppliancesFromFile rt "./appliances.json" = Rejected e
            /\ SchemaValidationError e.
Proof.
  intros rt. split; [reflexivity |]. split; [reflexivity |].
  apply (proj2 (loadAppliancesFromFile_schema_error_iff rt "./appliances.json"
                  "{}" (JObj []) eq_refl eq_refl)).
  intros (entries & ds & E & _). discriminate.
Defined.

(* ================================================================= *)
(** ** Trimmed names *)

Lemma trimStart_clean : forall s, clean_start (trimStart s).
Proof.
  induction s as [| c s IH]; [exact I |].
  cbn [trimStart]. destruct (isWhiteSpace c) eqn:E; [exact IH | exact E].
Qed.

Lemma clean_start_trimStart : forall s, clean_start s -> trimStart s = s.
Proof.
  intros [| c s] H; [reflexivity |]. cbn in *. rewrite H. reflexivity.
Qed.

(** What [trimStart] removes is a prefix. *)
Lemma trimStart_suffix :
  forall s, exists removed, s = (removed ++ trimStart s)%string.
Proof.
  induction s as [| c s [removed IH]]; [exists ""; reflexivity |].
  cbn [trimStart]. destruct (isWhiteSpace c).
  - exists (String c removed). cbn. rewrite <- IH. reflexivity.
  - exists "". reflexivity.
Qed.

Lemma reverse_append :
  forall a b acc, reverse (a ++ b)%string acc = reverse b (reverse a acc).
Proof.
  induction a as [| c a IH]; intros b acc; [reflexivity |].
  cbn. apply IH.
Qed.

Lemma first_char_reverse :
  forall s acc, s <> "" -> first_char (reverse s acc) = first_char (reverse s "").
Proof.
  induction s as [| c s IH]; intros acc H; [contradiction |].
  cbn [reverse]. destruct s as [| c' s'].
  - reflexivity.
  - rewrite (IH (String c acc)), (IH (String c "")); [reflexivity | |];
      discriminate.
Qed.

Lemma clean_start_first_char :
  forall s t, first_char s = first_char t -> clean_start s -> clean_start t.
Proof.
  intros [| c s] [| d t] H Hs; cbn in *; try exact I; try discriminate.
  inversion H; subst. exact Hs.
Qed.

(** Trimming the end keeps a clean start clean. *)
Lemma trimEnd_clean : forall t, clean_start t -> clean_start (trimEnd t).
Proof.
  intros t Ht. unfold trimEnd.
  destruct (trimStart_suffix (reverse t "")) as [removed E].
  remember (trimStart (reverse t "")) as kept eqn:K.
  destruct kept as [| c kept']; [exact I |].
  assert (T : t = reverse (String c kept') (reverse removed "")).
  { rewrite <- reverse_append, <- E. symmetry. apply (reverse_reverse t ""). }
  apply (clean_start_first_char t); [| exact Ht].
  rewrite T at 1. apply first_char_reverse. discriminate.
Qed.

Lemma trimEnd_idempotent : forall t, trimEnd (trimEnd t) = trimEnd t.
Proof.
  intros t. unfold trimEnd.
  rewrite (reverse_reverse (trimStart (reverse t "")) ""). cbn [reverse].
  rewrite (clean_start_trimStart _ (trimStart_clean _)). reflexivity.
Qed.

(** [trim] is idempotent: a trimmed string has no white space around it. *)
Lemma trim_idempotent : forall s, trim (trim s) = trim s.
Proof.
  intros s. unfold trim.
  rewrite (clean_start_trimStart (trimEnd (trimStart s))).
  - apply trimEnd_idempotent.
  - apply trimEnd_clean. apply trimStart_clean.
Qed.

(** X3. Every appliance that the loader returns has a name that is not empty
    and has no white space around it, and a power consumption and embodied
    emissions that are not negative. *)
Theorem loaded_appliances_are_well_formed :
  forall rt path appliances,
    loadAppliancesFromFile rt path = Fulfilled appliances ->
    Forall (fun a => a_name a <> ""
                     /\ trim (a_name a) = a_name a
                     /\ (0 <= a_powerConsumption a)%Q
                     /\ (0 <= a_embodiedEmissions a)%Q) appliances.
Proof.
  intros rt path appliances H.
  destruct (loadAppliancesFromFile_fulfilled_inv_aux rt path appliances H)
    as (entries & ds & Hacc & ->).
  clear H. induction Hacc as [| e d entries ds He _ IH]; [constructor |].
  cbn [map]. constructor; [| exact IH].
  destruct He as (props & name & _ & _ & Hname & Ed & _ & Hp & _ & Hem & _).
  unfold toAppliance. cbn. rewrite Ed.
  repeat split; try assumption. apply trim_idempotent.
Qed.

Lemma loaded_appliances_are_well_formed_witness :
  loadAppliancesFromFile Fixture.rt "./padded.json"
    = Fulfilled [mkAppliance "Fridge" 150 50 ALWAYS_ON []] /\
  Forall (fun a => a_name a <> ""
                   /\ trim (a_name a) = a_name a
                   /\ (0 <= a_powerConsumption a)%Q
                   /\ (0 <= a_embodiedEmissions a)%Q)
         [mkAppliance "Fridge" 150 50 ALWAYS_ON []].
Proof.
  assert (L : loadAppliancesFromFile Fixture.rt "./padded.json"
              = Fulfilled [mkAppliance "Fridge" 150 50 ALWAYS_ON []])
    by (vm_compute; reflexivity).
  split; [exact L |].
  exact (loaded_appliances_are_well_formed Fixture.rt "./padded.json" _ L).
Defined.

(* ================================================================= *)
(** ** Numbers as they are printed and as [parseInt] reads them *)

Lemma to_uint_not_Nil : forall n, Nat.to_uint n <> Decimal.Nil.
Proof.
  intros n H.
  pose proof (DecimalNat.Unsigned.to_of (Nat.to_uint n)) as E.
  rewrite DecimalNat.Unsigned.of_to, H in E. discriminate.
Qed.

Lemma parseDigits_uint :
  forall (d : Decimal.uint) (a : Z),
    (0 <= a)%Z ->
    parseDigits 10 (NilEmpty.string_of_uint d) (Some a)
    = Some (Z.of_nat (Nat.of_uint_acc d (Z.to_nat a))).
Proof.
  induction d; intros a Ha; cbn [NilEmpty.string_of_uint parseDigits];
    [ cbn [Nat.of_uint_acc]; rewrite Z2Nat.id; [reflexivity | exact Ha] | .. ];
    match goal with
    | |- context [digitValue ?c] =>
        let v := eval vm_compute in (digitValue c) in
        change (digitValue c) with v
    end;
    cbv beta iota;
    match goal with
    | |- context [(?k <? 10)%Z] => change (k <? 10)%Z with true
    end;
    cbv beta iota; rewrite IHd by lia;
    cbn [Nat.of_uint_acc]; rewrite Nat.tail_mul_spec;
    do 3 f_equal; lia.
Qed.

(** A number printed in decimal is not empty, is not [done], and
    [parseInt] reads the number back. *)
Lemma string_of_nat_parseInt :
  forall n,
    String.eqb (string_of_nat n) "" = false /\
    String.eqb (toLowerCase (string_of_nat n)) "done" = false /\
    parseInt (string_of_nat n) = Some (Z.of_nat n).
Proof.
  intros n. unfold string_of_nat.
  pose proof (to_uint_not_Nil n) as Hn.
  pose proof (DecimalNat.Unsigned.of_to n) as Hof.
  destruct (Nat.to_uint n) as [| d | d | d | d | d | d | d | d | d | d];
    [contradiction | ..];
    (split; [reflexivity |]); (split; [reflexivity |]);
    rewrite <- Hof; unfold parseInt;
    cbn [NilEmpty.string_of_uint trimStart];
    match goal with
    | |- context [isWhiteSpace ?c] => change (isWhiteSpace c) with false
    end;
    cbv beta iota.
  1: destruct d; cbn [NilEmpty.string_of_uint].
  all: cbn [parseDigits];
    repeat match goal with
    | |- context [digitValue ?c] =>
        let v := eval vm_compute in (digitValue c) in
        change (digitValue c) with v
    end;
    cbv beta iota;
    repeat match goal with
    | |- context [(?k <? ?r)%Z] =>
        let v := eval vm_compute in (k <? r)%Z in
        change (k <? r)%Z with v
    end;
    cbv beta iota;
    try rewrite parseDigits_uint by lia;
    unfold Nat.of_uint; cbn [Nat.of_uint_acc option_map];
    rewrite ?Nat.tail_mul_spec; rewrite ?Z.mul_1_l; do 2 f_equal; try lia.
Qed.

(* ================================================================= *)
(** ** The listings *)

Lemma log_entries_numbered :
  forall (A : Type) (toString : A -> string) (l : list A) (index : nat) (w : World),
    log_entries toString l index w
    = (tt, mkWorld (stdin w) (console w ++ numbered toString l index)%list
                   (clock_reads w) (random_reads w)).
Proof.
  intros A toString. induction l as [| x l IH]; intros index w.
  - cbn. rewrite app_nil_r. destruct w; reflexivity.
  - cbn [log_entries numbered]. unfold bind, console_log, emit.
    rewrite IH. cbn [stdin console clock_reads random_reads].
    rewrite <- app_assoc. reflexivity.
Qed.

Lemma numbered_nth :
  forall (A : Type) (toString : A -> string) (l : list A) (index i : nat) (x : A),
    nth_error l i = Some x ->
    nth_error (numbered toString l index) i
    = Some (Log (string_of_nat (index + i + 1) ++ ". " ++ toString x)).
Proof.
  intros A toString. induction l as [| y l IH]; intros index i x H.
  - destruct i; discriminate.
  - destruct i as [| i]; cbn in H |- *.
    + inversion H. rewrite Nat.add_0_r. reflexivity.
    + rewrite (IH (S index) i x H).
      replace (S index + i + 1) with (index + S i + 1) by lia. reflexivity.
Qed.

Lemma numbered_length :
  forall (A : Type) (toString : A -> string) (l : list A) (index : nat),
    List.length (numbered toString l index) = List.length l.
Proof.
  intros A toString. induction l as [| y l IH]; intros index;
    [reflexivity | cbn; rewrite IH; reflexivity].
Qed.

Section Listings.

Context (rt : Runtime).

(** X4. [list_appliances] on a catalog that is not empty prints a heading and
    then one line per appliance, in the order of the catalog; the line of
    the appliance at position i (from 0) starts with the number i + 1. It
    takes nothing from the input. *)
Theorem listAppliances_prints_numbered_lines :
  forall this w,
    _possibleAppliances this <> [] ->
    exists lines,
      listAppliances rt this w
      = (tt, mkWorld (stdin w)
                     (console w ++ Log (nl ++ "Possible appliances:") :: lines)%list
                     (clock_reads w) (random_reads w)) /\
      List.length lines = List.length (_possibleAppliances this) /\
      forall i a,
        nth_error (_possibleAppliances this) i = Some a ->
        nth_error lines i
        = Some (Log (string_of_nat (i + 1) ++ ". " ++ Appliance_toString rt a)).
Proof.
  intros this w H.
  exists (numbered (Appliance_toString rt) (_possibleAppliances this) 0).
  split; [| split].
  - unfold listAppliances.
    destruct (_possibleAppliances this) as [| a l] eqn:E; [contradiction |].
    cbn [List.length Nat.eqb]. unfold bind, console_log, emit.
    rewrite log_entries_numbered. cbn [stdin console clock_reads random_reads].
    rewrite <- app_assoc. reflexivity.
  - apply numbered_length.
  - intros i a Hi. apply (numbered_nth _ _ _ 0 i a Hi).
Qed.


End Listings.

Lemma listAppliances_prints_numbered_lines_witness :
  _possibleAppliances (App_new Fixture.catalog) <> [] /\
  exists lines,
    listAppliances Fixture.rt (App_new Fixture.catalog) (Fixture.world [])
    = (tt, mkWorld [] (Log (nl ++ "Possible appliances:") :: lines) 0 0) /\
    List.length lines = 2 /\
    forall i a,
      nth_error Fixture.catalog i = Some a ->
      nth_error lines i
      = Some (Log (string_of_nat (i + 1) ++ ". "
                     ++ Appliance_toString Fixture.rt a)).
Proof.
  split; [discriminate |].
  exact (listAppliances_prints_numbered_lines Fixture.rt
           (App_new Fixture.catalog) (Fixture.world []) ltac:(discriminate)).
Defined.


(* ================================================================= *)
(** ** The selection loop, answer by answer *)

Section Selection.

Context (rt : Runtime).

Lemma getAppliances_loop_pick :
  forall possibleAppliances text rest selected out i a,
    String.eqb text "" = false ->
    String.eqb (toLowerCase text) "done" = false ->
    parseInt text = Some (Z.of_nat (S i)) ->
    nth_error possibleAppliances i = Some a ->
    fst (fst (getAppliances_loop rt possibleAppliances (Some text :: rest)
                selected out))
    = (selected ++ a :: selection rt possibleAppliances rest)%list.
Proof.
  intros possibleAppliances text rest selected out i a H0 Hd Hp Hn.
  cbn [getAppliances_loop]. rewrite H0, Hd, Hp. cbn [orb option_map].
  replace (Z.of_nat (S i) - 1)%Z with (Z.of_nat i) by lia.
  assert (Hi : i < List.length possibleAppliances).
  { apply nth_error_Some. rewrite Hn. discriminate. }
  destruct (Z.ltb_spec (Z.of_nat i) 0); [lia |].
  destruct (Z.leb_spec (Z.of_nat (List.length possibleAppliances)) (Z.of_nat i));
    [lia |].
  cbn [orb]. rewrite Nat2Z.id, Hn.
  rewrite getAppliances_loop_selection, <- app_assoc. reflexivity.
Qed.

Lemma getAppliances_loop_skip :
  forall possibleAppliances text rest selected out n,
    String.eqb text "" = false ->
    String.eqb (toLowerCase text) "done" = false ->
    parseInt text = Some (Z.of_nat n) ->
    n = 0 \/ List.length possibleAppliances < n ->
    fst (fst (getAppliances_loop rt possibleAppliances (Some text :: rest)
                selected out))
    = (selected ++ selection rt possibleAppliances rest)%list.
Proof.
  intros possibleAppliances text rest selected out n H0 Hd Hp Hn.
  cbn [getAppliances_loop]. rewrite H0, Hd, Hp. cbn [orb option_map].
  assert (E : ((Z.of_nat n - 1 <? 0)
               || (Z.of_nat (List.length possibleAppliances) <=? Z.of_nat n - 1))%Z
              = true).
  { apply orb_true_iff. destruct Hn as [-> | Hn].
    - left. reflexivity.
    - right. apply Z.leb_le. lia. }
  rewrite E. apply getAppliances_loop_selection.
Qed.

(** X6. The number that [list_appliances] prints before an appliance selects
    that appliance: answering i + 1 adds the appliance at position i of the
    catalog and the loop goes on with the next answer. *)
Theorem selection_by_listed_number :
  forall possibleAppliances i a rest,
    nth_error possibleAppliances i = Some a ->
    selection rt possibleAppliances (Some (string_of_nat (i + 1)) :: rest)
    = a :: selection rt possibleAppliances rest.
Proof.
  intros possibleAppliances i a rest H.
  destruct (string_of_nat_parseInt (i + 1)) as (H0 & Hd & Hp).
  rewrite Nat.add_1_r in *. unfold selection at 1.
  apply (getAppliances_loop_pick possibleAppliances _ rest [] [] i a H0 Hd Hp H).
Qed.

(** X7. The number 0 and a number greater than the size of the catalog select
    nothing, and the loop goes on with the next answer. *)
Theorem selection_skips_number_out_of_range :
  forall possibleAppliances n rest,
    n = 0 \/ List.length possibleAppliances < n ->
    selection rt possibleAppliances (Some (string_of_nat n) :: rest)
    = selection rt possibleAppliances rest.
Proof.
  intros possibleAppliances n rest H.
  destruct (string_of_nat_parseInt n) as (H0 & Hd & Hp).
  unfold selection at 1.
  apply (getAppliances_loop_skip possibleAppliances _ rest [] [] n H0 Hd Hp H).
Qed.

End Selection.

Lemma selection_by_listed_number_witness :
  nth_error Fixture.catalog 1 = Some Fixture.kettle /\
  selection Fixture.rt Fixture.catalog [Some "2"; Some "done"]
  = [Fixture.kettle].
Proof.
  split; [reflexivity |].
  exact (selection_by_listed_number Fixture.rt Fixture.catalog 1 Fixture.kettle
           [Some "done"] eq_refl).
Defined.

Lemma selection_skips_number_out_of_range_witness :
  (3 = 0 \/ List.length Fixture.catalog < 3) /\
  selection Fixture.rt Fixture.catalog [Some "3"; Some "1"]
  = [Fixture.fridge].
Proof.
  assert (H : 3 = 0 \/ List.length Fixture.catalog < 3) by (right; simpl; lia).
  split; [exact H |].
  exact (selection_skips_number_out_of_range Fixture.rt Fixture.catalog 3
           [Some "1"] H).
Defined.

(* ================================================================= *)
(** ** The region menu and the time window *)

Lemma region_of_answer_other :
  forall answer,
    answer <> Some "1" -> answer <> Some "2" -> answer <> Some "3" ->
    region_of_answer answer = NOT_SPECIFIED.
Proof.
  intros [[| c s] |] H1 H2 H3; try reflexivity.
  destruct c as [[] [] [] [] [] [] [] []]; destruct s; try reflexivity;
    congruence.
Qed.

(** X8. [getRegion] takes one answer; [1], [2] and [3] give US, EU and ASIA,
    and every other answer, an empty or a missing one, one with a space or
    a number out of the menu, gives NOT_SPECIFIED: no answer is refused. *)
Theorem getRegion_menu :
  forall w,
    let answer := hd None (stdin w) in
    let region := fst (getRegion w) in
    stdin (snd (getRegion w)) = tl (stdin w) /\
    (answer = Some "1" -> region = US) /\
    (answer = Some "2" -> region = EU) /\
    (answer = Some "3" -> region = ASIA) /\
    (answer <> Some "1" -> answer <> Some "2" -> answer <> Some "3" ->
     region = NOT_SPECIFIED).
Proof.
  intros w. cbn zeta.
  assert (E : fst (getRegion w) = region_of_answer (hd None (stdin w))
              /\ stdin (snd (getRegion w)) = tl (stdin w)).
  { destruct (stdin w) as [| x r] eqn:Ew.
    - unfold getRegion, bind, console_log, emit, prompt.
      cbn [stdin console clock_reads random_reads]. rewrite Ew.
      split; reflexivity.
    - destruct (getRegion_answer w x r Ew) as (w' & Eg & Es).
      rewrite Eg. split; [reflexivity | exact Es]. }
  destruct E as [Er Es]. rewrite Er. split; [exact Es |].
  repeat split.
  - intros ->. reflexivity.
  - intros ->. reflexivity.
  - intros ->. reflexivity.
  - apply region_of_answer_other.
Qed.

Ltac window_steps H :=
  cbv beta iota zeta
      delta [getTimeWindow bind console_log emit today new_Date
             prompt_required prompt ret falsy
             stdin console clock_reads random_reads] in H.

Ltac window_answers H :=
  window_steps H;
  repeat match type of H with
         | context [if String.eqb ?s "" then _ else _] =>
             let E := fresh "E" in
             destruct (String.eqb s "") eqn:E; window_steps H
         end.

Section TimeWindow.

Context (rt : Runtime).

(** X9. [getTimeWindow] gives a window only when the next four answers are
    there and not empty and both date texts parse; the window holds the two
    parsed dates as they are (their order is not compared), and exactly
    the four answers are taken. *)
Theorem getTimeWindow_some_inv :
  forall w timeWindow w',
    getTimeWindow rt w = (Some timeWindow, w') ->
    exists sd st ed et,
      stdin w = Some sd :: Some st :: Some ed :: Some et :: stdin w' /\
      sd <> "" /\ st <> "" /\ ed <> "" /\ et <> "" /\
      Date_parse rt (sd ++ "T" ++ st) = Some (tw_start timeWindow) /\
      Date_parse rt (ed ++ "T" ++ et) = Some (tw_end timeWindow).
Proof.
  intros [input out clock rnd] timeWindow w' H.
  destruct input as [| [sd |] [| [st |] [| [ed |] [| [et |] r]]]];
    window_answers H; try discriminate.
  destruct (Date_parse rt (sd ++ "T" ++ st)) as [startDate |] eqn:Es;
    [| destruct (Date_parse rt (ed ++ "T" ++ et)); discriminate].
  destruct (Date_parse rt (ed ++ "T" ++ et)) as [endDate |] eqn:Ee;
    [| discriminate].
  inversion H; subst; clear H. cbn [stdin tw_start tw_end].
  exists sd, st, ed, et.
  repeat split; try assumption; apply String.eqb_neq; assumption.
Qed.

Lemma getTimeWindow_invalid_date :
  forall w sd st ed et r,
    stdin w = Some sd :: Some st :: Some ed :: Some et :: r ->
    sd <> "" -> st <> "" -> ed <> "" -> et <> "" ->
    Date_parse rt (sd ++ "T" ++ st) = None
    \/ Date_parse rt (ed ++ "T" ++ et) = None ->
    exists w',
      getTimeWindow rt w = (None, w') /\
      stdin w' = r /\
      last (console w') (Log "") = Log "Invalid date or time format.".
Proof.
  intros [input out clock rnd] sd st ed et r H Hsd Hst Hed Het Hbad.
  cbn [stdin] in H. subst input.
  apply String.eqb_neq in Hsd, Hst, Hed, Het.
  assert (G : exists w', getTimeWindow rt
                (mkWorld (Some sd :: Some st :: Some ed :: Some et :: r)
                         out clock rnd) = (None, w')
              /\ stdin w' = r
              /\ exists before, console w'
                                = (before ++ [Log "Invalid date or time format."])%list).
  { remember (getTimeWindow rt _) as result eqn:H.
    window_steps H. rewrite Hsd in H. window_steps H.
    rewrite Hst in H. window_steps H. rewrite Hed in H. window_steps H.
    rewrite Het in H. window_steps H.
    destruct Hbad as [Hbad | Hbad]; rewrite Hbad in H.
    - destruct (Date_parse rt (ed ++ "T" ++ et)); subst result;
        eexists; (split; [reflexivity |]); (split; [reflexivity |]);
        eexists; reflexivity.
    - destruct (Date_parse rt (sd ++ "T" ++ st)); subst result;
        eexists; (split; [reflexivity |]); (split; [reflexivity |]);
        eexists; reflexivity. }
  destruct G as (w' & E & Es & before & Ec).
  exists w'. split; [exact E |]. split; [exact Es |].
  rewrite Ec. apply last_last.
Qed.

(** X10. An edit whose date or time does not parse prints the message of the
    invalid format and appends nothing: the controller is the one it was,
    and the six answers are taken. *)
Theorem editScenario_invalid_date_changes_nothing :
  forall this w input newName sd st ed et r,
    stdin w = Some input :: newName :: Some sd :: Some st :: Some ed
                :: Some et :: r ->
    input <> "" -> sd <> "" -> st <> "" -> ed <> "" -> et <> "" ->
    Exists (fun s => s_name s = input) (_scenarios this) ->
    Date_parse rt (sd ++ "T" ++ st) = None
    \/ Date_parse rt (ed ++ "T" ++ et) = None ->
    exists w',
      editScenario rt this w = (this, w') /\
      stdin w' = r /\
      last (console w') (Log "") = Log "Invalid date or time format.".
Proof.
  intros this w input newName sd st ed et r Hin Hinput Hsd Hst Hed Het Hex Hbad.
  unfold editScenario. unfold bind at 1.
  pose proof (listScenarios_stdin rt this w) as S1.
  destruct (listScenarios rt this w) as [[] w1]. cbn [snd] in S1.
  rewrite (Exists_length_nonzero _ _ _ Hex).
  rewrite Hin in S1.
  destruct (prompt_answer "Enter the name of the scenario to edit:" None
              w1 _ _ S1) as (w2 & E2 & S2).
  unfold bind at 1. rewrite E2.
  apply String.eqb_neq in Hinput. rewrite Hinput.
  destruct (findIndex_Exists input (_scenarios this) Hex)
    as (i & original & Ei & En & Eo).
  rewrite Ei, En.
  destruct (getScenarioName_answer original w2 _ _ S2) as (w3 & E3 & S3).
  unfold bind at 1. rewrite E3.
  destruct (getTimeWindow_invalid_date w3 sd st ed et r S3 Hsd Hst Hed Het Hbad)
    as (w4 & E4 & S4 & L4).
  unfold bind at 1. rewrite E4.
  exists w4. split; [reflexivity |]. split; assumption.
Qed.

End TimeWindow.

Lemma getTimeWindow_some_inv_witness :
  getTimeWindow Fixture.rt
    (Fixture.world [Some "2024-01-02"; Some "23:59"; Some "2024-01-01";
                    Some "00:00"; Some "1"])
  = (Some (mkTimeWindow 1704239940000%Z 1704067200000%Z),
     snd (getTimeWindow Fixture.rt
            (Fixture.world [Some "2024-01-02"; Some "23:59"; Some "2024-01-01";
                            Some "00:00"; Some "1"]))) /\
  exists sd st ed et,
    [Some "2024-01-02"; Some "23:59"; Some "2024-01-01"; Some "00:00"; Some "1"]
    = [Some sd; Some st; Some ed; Some et; Some "1"] /\
    sd <> "" /\ st <> "" /\ ed <> "" /\ et <> "" /\
    Date_parse Fixture.rt (sd ++ "T" ++ st) = Some 1704239940000%Z /\
    Date_parse Fixture.rt (ed ++ "T" ++ et) = Some 1704067200000%Z.
Proof.
  assert (E : getTimeWindow Fixture.rt
                (Fixture.world [Some "2024-01-02"; Some "23:59";
                                Some "2024-01-01"; Some "00:00"; Some "1"])
              = (Some (mkTimeWindow 1704239940000%Z 1704067200000%Z),
                 snd (getTimeWindow Fixture.rt
                        (Fixture.world [Some "2024-01-02"; Some "23:59";
                                        Some "2024-01-01"; Some "00:00";
                                        Some "1"]))))
    by (vm_compute; reflexivity).
  split; [exact E |].
  exact (getTimeWindow_some_inv Fixture.rt _ _ _ E).
Defined.

Lemma editScenario_invalid_date_changes_nothing_witness :
  exists w',
    editScenario Fixture.rt (mkApp Fixture.catalog [Fixture.scenario1])
      (Fixture.world [Some "scenario-1"; Some "kitchen"; Some "2024-13-01";
                      Some "00:00"; Some "2024-01-02"; Some "23:59"; Some "1"])
    = (mkApp Fixture.catalog [Fixture.scenario1], w') /\
    stdin w' = [Some "1"] /\
    last (console w') (Log "") = Log "Invalid date or time format.".
Proof.
  apply (editScenario_invalid_date_changes_nothing Fixture.rt
           (mkApp Fixture.catalog [Fixture.scenario1])
           (Fixture.world [Some "scenario-1"; Some "kitchen"; Some "2024-13-01";
                           Some "00:00"; Some "2024-01-02"; Some "23:59";
                           Some "1"])
           "scenario-1" (Some "kitchen") "2024-13-01" "00:00" "2024-01-02"
           "23:59" [Some "1"] eq_refl);
    try discriminate.
  - apply Exists_cons_hd. reflexivity.
  - left. reflexivity.
Defined.

(* ================================================================= *)
(** ** Looking a scenario up by its name *)

Lemma find_none_other_names :
  forall (input : string) (l : list Scenario),
    Forall (fun s => s_name s <> input) l ->
    find (fun s => String.eqb (s_name s) input) l = None /\
    findIndex (fun s => String.eqb (s_name s) input) l = None.
Proof.
  intros input. induction l as [| s l IH]; intros H; [split; reflexivity |].
  inversion H as [| ? ? Hs Hl]; subst. destruct (IH Hl) as [F I].
  cbn [find findIndex]. apply String.eqb_neq in Hs. rewrite Hs, F, I.
  split; reflexivity.
Qed.

Lemma find_first_of_name :
  forall (input : string) (before after : list Scenario) (s : Scenario),
    Forall (fun x => s_name x <> input) before ->
    s_name s = input ->
    find (fun x => String.eqb (s_name x) input) (before ++ s :: after) = Some s.
Proof.
  intros input before after s Hb Hs.
  induction Hb as [| x before Hx _ IH]; cbn [app find].
  - apply String.eqb_eq in Hs. rewrite Hs. reflexivity.
  - apply String.eqb_neq in Hx. rewrite Hx. exact IH.
Qed.

Lemma Exists_first_of_name :
  forall (input : string) (l : list Scenario),
    Exists (fun s => s_name s = input) l ->
    exists s, find (fun x => String.eqb (s_name x) input) l = Some s
              /\ s_name s = input.
Proof.
  intros input. induction l as [| x l IH]; intros H; [inversion H |].
  cbn [find]. destruct (String.eqb (s_name x) input) eqn:E.
  - exists x. split; [reflexivity |]. apply String.eqb_eq. exact E.
  - inversion H as [? ? Hx | ? ? Hl]; subst.
    + apply String.eqb_neq in E. contradiction.
    + exact (IH Hl).
Qed.

Lemma nonempty_length_nonzero :
  forall (A : Type) (l : list A), l <> [] -> (List.length l =? 0)%nat = false.
Proof. intros A [| x l] H; [contradiction | reflexivity]. Qed.

Lemma console_log_last :
  forall text w,
    exists w', console_log text w = (tt, w') /\
               stdin w' = stdin w /\
               random_reads w' = random_reads w /\
               last (console w') (Log "") = Log text.
Proof.
  intros text w. eexists. split; [reflexivity |].
  cbn. repeat split. apply last_last.
Qed.

Section Lookup.

Context (rt : Runtime).

(** X11. With a name that no scenario has, each of [edit_scenario],
    [delete_scenario] and [show_scenario_report] takes the one answer,
    prints that the scenario was not found and returns without a change. *)
Theorem handlers_report_unknown_name :
  forall this w input r,
    stdin w = Some input :: r ->
    input <> "" ->
    _scenarios this <> [] ->
    Forall (fun s => s_name s <> input) (_scenarios this) ->
    (exists w', editScenario rt this w = (this, w') /\ stdin w' = r /\
                last (console w') (Log "")
                = Log ("Scenario " ++ input ++ " not found.")) /\
    (exists w', deleteScenario rt this w = ((this, None), w') /\ stdin w' = r /\
                last (console w') (Log "")
                = Log ("Scenario " ++ input ++ " not found.")) /\
    (exists w', showScenarioReport rt this w = (tt, w') /\ stdin w' = r /\
                last (console w') (Log "")
                = Log ("Scenario " ++ input ++ " not found.")).
Proof.
  intros this w input r Hin Hinput Hne Hother.
  destruct (find_none_other_names input _ Hother) as [F I].
  pose proof (listScenarios_stdin rt this w) as S1.
  apply String.eqb_neq in Hinput. rewrite Hin in S1.
  pose proof (nonempty_length_nonzero _ _ Hne) as Hlen.
  split; [| split].
  - unfold editScenario. unfold bind at 1.
    destruct (listScenarios rt this w) as [[] w1]. cbn [snd] in S1.
    rewrite Hlen.
    destruct (prompt_answer "Enter the name of the scenario to edit:" None
                w1 _ _ S1) as (w2 & E2 & S2).
    unfold bind at 1. rewrite E2, Hinput, I. unfold bind.
    destruct (console_log_last ("Scenario " ++ input ++ " not found.") w2)
      as (w3 & E3 & S3 & _ & L3).
    rewrite E3. exists w3. repeat split; [congruence | exact L3].
  - unfold deleteScenario. unfold bind at 1.
    destruct (listScenarios rt this w) as [[] w1]. cbn [snd] in S1.
    rewrite Hlen.
    destruct (prompt_answer "Enter the name of the scenario to delete:" None
                w1 _ _ S1) as (w2 & E2 & S2).
    unfold bind at 1. rewrite E2, Hinput, F. unfold bind.
    destruct (console_log_last ("Scenario " ++ input ++ " not found.") w2)
      as (w3 & E3 & S3 & _ & L3).
    rewrite E3. exists w3. repeat split; [congruence | exact L3].
  - unfold showScenarioReport. unfold bind at 1.
    destruct (listScenarios rt this w) as [[] w1]. cbn [snd] in S1.
    rewrite Hlen.
    destruct (prompt_answer "Enter the name of the scenario to show report:"
                None w1 _ _ S1) as (w2 & E2 & S2).
    unfold bind at 1. rewrite E2, Hinput, F.
    destruct (console_log_last ("Scenario " ++ input ++ " not found.") w2)
      as (w3 & E3 & S3 & _ & L3).
    rewrite E3. exists w3. repeat split; [congruence | exact L3].
Qed.

(** X12. With the name of an existing scenario [delete_scenario] takes the one
    answer, reports the deletion and returns the list without every
    scenario of that name, the other scenarios in their order. *)
Theorem deleteScenario_returns_list_without_name :
  forall this w input r,
    stdin w = Some input :: r ->
    input <> "" ->
    Exists (fun s => s_name s = input) (_scenarios this) ->
    exists newScenarios w',
      deleteScenario rt this w = ((this, Some newScenarios), w') /\
      newScenarios
      = filter (fun s => negb (String.eqb (s_name s) input)) (_scenarios this) /\
      Forall (fun s => s_name s <> input) newScenarios /\
      (forall s, In s (_scenarios this) -> s_name s <> input -> In s newScenarios) /\
      stdin w' = r /\
      last (console w') (Log "") = Log ("Scenario " ++ input ++ " deleted.").
Proof.
  intros this w input r Hin Hinput Hex.
  destruct (Exists_first_of_name input _ Hex) as (s & F & Hs).
  pose proof (listScenarios_stdin rt this w) as S1.
  apply String.eqb_neq in Hinput.
  unfold deleteScenario. unfold bind at 1.
  destruct (listScenarios rt this w) as [[] w1]. cbn [snd] in S1.
  rewrite (Exists_length_nonzero _ _ _ Hex). rewrite Hin in S1.
  destruct (prompt_answer "Enter the name of the scenario to delete:" None
              w1 _ _ S1) as (w2 & E2 & S2).
  unfold bind at 1. rewrite E2, Hinput, F. cbv zeta. rewrite Hs. unfold bind.
  destruct (console_log_last ("Scenario " ++ input ++ " deleted.") w2)
    as (w3 & E3 & S3 & _ & L3).
  rewrite E3. eexists. exists w3. split; [reflexivity |].
  split; [reflexivity |]. split; [| split; [| split; [congruence | exact L3]]].
  - apply Forall_forall. intros x Hx. apply filter_In in Hx.
    destruct Hx as [_ Hx]. apply negb_true_iff in Hx.
    apply String.eqb_neq. exact Hx.
  - intros x Hx Hn. apply filter_In. split; [exact Hx |].
    apply negb_true_iff. apply String.eqb_neq. exact Hn.
Qed.

(** What [evaluate] does to the world: it draws one random number per
    appliance and nothing else. *)
Lemma evaluate_world :
  forall s w,
    snd (evaluate rt s w)
    = mkWorld (stdin w) (console w) (clock_reads w)
              (random_reads w + List.length (h_appliances (s_household s))).
Proof.
  intros s. unfold evaluate.
  induction (h_appliances (s_household s)) as [| a l IH]; intros w.
  - cbn. rewrite Nat.add_0_r. destruct w; reflexivity.
  - cbn [mapM]. unfold bind at 1 2. unfold random at 1. unfold ret at 1.
    cbv beta iota. unfold bind at 1.
    match goal with
    | |- context [mapM ?f l ?w1] =>
        specialize (IH w1); destruct (mapM f l w1) as [cs w2]
    end.
    cbn [snd] in IH |- *. unfold ret. cbn [snd]. rewrite IH.
    cbn [stdin console clock_reads random_reads List.length].
    f_equal. lia.
Qed.

(** X13. With a name that scenarios have, [show_scenario_report] reports on the
    first scenario of that name: it prints one contribution per appliance
    of that scenario, in their order, and draws one random number for
    each. *)
Theorem showScenarioReport_first_of_name :
  forall this w input r before s after,
    stdin w = Some input :: r ->
    input <> "" ->
    _scenarios this = (before ++ s :: after)%list ->
    Forall (fun x => s_name x <> input) before ->
    s_name s = input ->
    exists contributions w',
      showScenarioReport rt this w = (tt, w') /\
      last (console w') (Log "") = LogContributions contributions /\
      map c_appliance contributions = h_appliances (s_household s) /\
      stdin w' = r /\
      random_reads w'
      = random_reads w + List.length (h_appliances (s_household s)).
Proof.
  intros this w input r before s after Hin Hinput Hl Hb Hs.
  pose proof (find_first_of_name input before after s Hb Hs) as F.
  rewrite <- Hl in F.
  pose proof (listScenarios_stdin rt this w) as S1.
  assert (R1 : random_reads (snd (listScenarios rt this w)) = random_reads w).
  { unfold listScenarios.
    destruct (List.length (_scenarios this) =? 0)%nat; [reflexivity |].
    unfold bind, console_log, emit. rewrite log_entries_numbered. reflexivity. }
  apply String.eqb_neq in Hinput.
  unfold showScenarioReport. unfold bind at 1.
  destruct (listScenarios rt this w) as [[] w1]. cbn [snd] in S1, R1.
  assert (Hne : _scenarios this <> []).
  { rewrite Hl. destruct before; discriminate. }
  rewrite (nonempty_length_nonzero _ _ Hne). rewrite Hin in S1.
  unfold bind at 1. unfold prompt. rewrite S1. rewrite Hinput, F.
  unfold bind, emit.
  pose proof (evaluate_world s
                (mkWorld r (console w1 ++ [Prompt "Enter the name of the scenario to show report:" None])%list
                         (clock_reads w1) (random_reads w1))) as Ew.
  assert (Hmap : forall l w0,
             map c_appliance
                 (fst (mapM (fun a =>
                               x <- random rt ;;
                               ret (mkCO2Contribution a
                                      (inject_Z (Math_round x) * 100)%Q)) l w0))
             = l).
  { induction l as [| a l IH]; intros w0; [reflexivity |].
    cbn [mapM]. unfold bind at 1 2. unfold random at 1. unfold ret at 1.
    cbv beta iota. unfold bind at 1.
    match goal with
    | |- context [mapM ?f l ?w1] =>
        specialize (IH w1); destruct (mapM f l w1) as [cs w2]
    end.
    cbn [fst] in IH |- *. unfold ret. cbn. rewrite IH. reflexivity. }
  pose proof (Hmap (h_appliances (s_household s))
                (mkWorld r (console w1 ++ [Prompt "Enter the name of the scenario to show report:" None])%list
                         (clock_reads w1) (random_reads w1))) as Em.
  fold (evaluate rt s) in Em.
  destruct (evaluate rt s _) as [cs w3]. cbn [fst snd] in Ew, Em.
  exists cs. eexists. split; [reflexivity |].
  subst w3. cbn [stdin console clock_reads random_reads].
  split; [apply last_last |]. split; [exact Em |].
  split; [reflexivity | rewrite R1; reflexivity].
Qed.

End Lookup.

Lemma handlers_report_unknown_name_witness :
  exists w',
    deleteScenario Fixture.rt (mkApp Fixture.catalog [Fixture.scenario1])
      (Fixture.world [Some "kitchen"; Some "exit"])
    = ((mkApp Fixture.catalog [Fixture.scenario1], None), w') /\
    stdin w' = [Some "exit"] /\
    last (console w') (Log "") = Log "Scenario kitchen not found.".
Proof.
  apply (handlers_report_unknown_name Fixture.rt
           (mkApp Fixture.catalog [Fixture.scenario1])
           (Fixture.world [Some "kitchen"; Some "exit"])
           "kitchen" [Some "exit"] eq_refl);
    try discriminate.
  constructor; [discriminate | constructor].
Defined.

Lemma deleteScenario_returns_list_without_name_witness :
  exists newScenarios w',
    deleteScenario Fixture.rt
      (mkApp [] [Fixture.scenario1; mkScenario "kitchen" (s_household Fixture.scenario1);
                 Fixture.scenario1])
      (Fixture.world [Some "scenario-1"])
    = ((mkApp [] [Fixture.scenario1; mkScenario "kitchen" (s_household Fixture.scenario1);
                  Fixture.scenario1], Some newScenarios), w') /\
    newScenarios = [mkScenario "kitchen" (s_household Fixture.scenario1)] /\
    Forall (fun s => s_name s <> "scenario-1") newScenarios /\
    (forall s,
        In s [Fixture.scenario1; mkScenario "kitchen" (s_household Fixture.scenario1);
              Fixture.scenario1] ->
        s_name s <> "scenario-1" -> In s newScenarios) /\
    stdin w' = [] /\
    last (console w') (Log "") = Log "Scenario scenario-1 deleted.".
Proof.
  apply (deleteScenario_returns_list_without_name Fixture.rt
           (mkApp [] [Fixture.scenario1;
                      mkScenario "kitchen" (s_household Fixture.scenario1);
                      Fixture.scenario1])
           (Fixture.world [Some "scenario-1"]) "scenario-1" [] eq_refl).
  - discriminate.
  - apply Exists_cons_hd. reflexivity.
Defined.

Lemma showScenarioReport_first_of_name_witness :
  exists contributions w',
    showScenarioReport Fixture.rt
      (mkApp Fixture.catalog
             [Fixture.scenario1;
              mkScenario "kitchen" (mkHousehold EU (mkTimeWindow 0%Z 0%Z) Fixture.catalog);
              mkScenario "kitchen" (mkHousehold US (mkTimeWindow 0%Z 0%Z) [])])
      (Fixture.world [Some "kitchen"])
    = (tt, w') /\
    last (console w') (Log "") = LogContributions contributions /\
    map c_appliance contributions = Fixture.catalog /\
    stdin w' = [] /\
    random_reads w' = 2.
Proof.
  apply (showScenarioReport_first_of_name Fixture.rt
           (mkApp Fixture.catalog
                  [Fixture.scenario1;
                   mkScenario "kitchen" (mkHousehold EU (mkTimeWindow 0%Z 0%Z) Fixture.catalog);
                   mkScenario "kitchen" (mkHousehold US (mkTimeWindow 0%Z 0%Z) [])])
           (Fixture.world [Some "kitchen"]) "kitchen" []
           [Fixture.scenario1]
           (mkScenario "kitchen" (mkHousehold EU (mkTimeWindow 0%Z 0%Z) Fixture.catalog))
           [mkScenario "kitchen" (mkHousehold US (mkTimeWindow 0%Z 0%Z) [])]
           eq_refl).
  - discriminate.
  - reflexivity.
  - constructor; [discriminate | constructor].
  - reflexivity.
Defined.

(* ================================================================= *)
(** ** What the commands keep *)

Section Frame.

Context (rt : Runtime).

Lemma editScenario_result :
  forall this w,
    fst (editScenario rt this w) = this \/
    exists s,
      fst (editScenario rt this w)
      = mkApp (_possibleAppliances this) (_scenarios this ++ [s])%list /\
      Forall (fun a => In a (_possibleAppliances this))
             (h_appliances (s_household s)).
Proof.
  intros this w. unfold editScenario, bind, ret.
  destruct (listScenarios rt this w) as [[] w1].
  destruct (List.length (_scenarios this) =? 0)%nat; [left; reflexivity |].
  destruct (prompt _ _ w1) as [[input |] w2]; [| left; reflexivity].
  destruct (String.eqb input ""); [left; reflexivity |].
  destruct (findIndex _ _) as [scenarioIndex |]; [| left; reflexivity].
  destruct (nth_error _ _) as [originalScenario |]; [| left; reflexivity].
  destruct (getScenarioName originalScenario w2) as [name w3].
  destruct (getTimeWindow rt w3) as [[timeWindow |] w4]; [| left; reflexivity].
  destruct (getRegion w4) as [region w5].
  destruct (listAppliances rt this w5) as [[] w6].
  destruct (List.length (_possibleAppliances this) =? 0)%nat;
    [left; reflexivity |].
  right. unfold console_log, emit, getAppliances.
  cbn [stdin console clock_reads random_reads].
  match goal with
  | |- context [getAppliances_loop rt ?p ?i [] ?o] =>
      pose proof (getAppliances_loop_selection rt p i [] o) as Hsel;
      destruct (getAppliances_loop rt p i [] o) as [[selected r] out]
  end.
  cbn [fst app] in Hsel. subst selected.
  eexists. split; [reflexivity |]. cbn. apply selection_from_catalog.
Qed.

(** X14. Whatever the answers are, [edit_scenario] leaves the catalog and the
    scenarios of the list as they are: the list after it is the list before
    it, or that list with one scenario added at the end, whose appliances
    are appliances of the catalog. *)
Theorem editScenario_only_appends :
  forall this w,
    _possibleAppliances (fst (editScenario rt this w)) = _possibleAppliances this /\
    (_scenarios (fst (editScenario rt this w)) = _scenarios this \/
     exists s,
       _scenarios (fst (editScenario rt this w)) = (_scenarios this ++ [s])%list /\
       Forall (fun a => In a (_possibleAppliances this))
              (h_appliances (s_household s))).
Proof.
  intros this w.
  destruct (editScenario_result this w) as [E | (s & E & Hs)]; rewrite E.
  - split; [reflexivity | left; reflexivity].
  - split; [reflexivity | right; exists s; split; [reflexivity | exact Hs]].
Qed.

(** A command of the table keeps the catalog, keeps the scenarios it found
    at the front of the list, and keeps the appliances of every scenario
    within the catalog. *)
Lemma command_grows :
  forall key command this w,
    Map_get (commands rt) key = Some command ->
    _possibleAppliances (fst (command this w)) = _possibleAppliances this /\
    (exists more, _scenarios (fst (command this w))
                  = (_scenarios this ++ more)%list) /\
    (from_catalog this -> from_catalog (fst (command this w))).
Proof.
  intros key command this w H.
  assert (Same : forall this', this' = this ->
            _possibleAppliances this' = _possibleAppliances this /\
            (exists more, _scenarios this' = (_scenarios this ++ more)%list) /\
            (from_catalog this -> from_catalog this')).
  { intros this' ->. split; [reflexivity |]. split; [| auto].
    exists []. rewrite app_nil_r. reflexivity. }
  assert (Added : forall s,
            Forall (fun a => In a (_possibleAppliances this))
                   (h_appliances (s_household s)) ->
            let this' := mkApp (_possibleAppliances this)
                               (_scenarios this ++ [s])%list in
            _possibleAppliances this' = _possibleAppliances this /\
            (exists more, _scenarios this' = (_scenarios this ++ more)%list) /\
            (from_catalog this -> from_catalog this')).
  { intros s Hs. cbn. split; [reflexivity |]. split; [exists [s]; reflexivity |].
    unfold from_catalog. cbn. intros Hc. apply Forall_app.
    split; [exact Hc | constructor; [exact Hs | constructor]]. }
  unfold commands in H. cbn [Map_get] in H.
  repeat match type of H with
         | (if ?c then _ else _) = _ => destruct c
         end;
    try discriminate; inversion H; subst command; clear H.
  - apply Same. unfold bind, ret. destruct (listAppliances rt this w).
    reflexivity.
  - apply Same. unfold bind, ret. destruct (listScenarios rt this w).
    reflexivity.
  - destruct (createScenario_appends rt this w) as (start & stop & w' & E).
    rewrite E. apply Added. constructor.
  - destruct (editScenario_result this w) as [E | (s & E & Hs)]; rewrite E.
    + apply Same. reflexivity.
    + apply Added. exact Hs.
  - apply Same. unfold bind, ret.
    pose proof (deleteScenario_keeps_the_controller rt this w) as E.
    destruct (deleteScenario rt this w) as [[this' returned] w'].
    exact E.
  - apply Same. unfold bind, ret. destruct (showScenarioReport rt this w).
    reflexivity.
Qed.

Lemma run_loop_grows :
  forall fuel this w this',
    fst (run_loop rt fuel this w) = Some this' ->
    _possibleAppliances this' = _possibleAppliances this /\
    (exists more, _scenarios this' = (_scenarios this ++ more)%list) /\
    (from_catalog this -> from_catalog this').
Proof.
  induction fuel as [| fuel IH]; intros this w this' H; [discriminate |].
  cbn [run_loop] in H. unfold bind at 1 in H.
  destruct (prompt _ _ w) as [input w1].
  destruct (falsy input); [exact (IH _ _ _ H) |].
  destruct (Map_get (commands rt) _) as [command |] eqn:Ec.
  - unfold bind at 1 in H.
    pose proof (command_grows _ command this w1 Ec) as (Hc & (m1 & Hm1) & Hf).
    destruct (command this w1) as [this1 w2]. cbn [fst] in Hc, Hm1, Hf.
    destruct (IH _ _ _ H) as (Hc' & (m2 & Hm2) & Hf').
    split; [congruence |]. split; [| auto].
    exists (m1 ++ m2)%list. rewrite Hm2, Hm1, app_assoc. reflexivity.
  - destruct (String.eqb _ "exit").
    + unfold bind, console_log, emit, ret in H. cbn in H. inversion H; subst.
      split; [reflexivity |]. split; [| auto].
      exists []. rewrite app_nil_r. reflexivity.
    + unfold bind at 1 in H. destruct (console_log _ w1) as [[] w2].
      exact (IH _ _ _ H).
Qed.

Lemma run_loop_grows_run :
  forall fuel this w this',
    fst (run rt fuel this w) = Some this' ->
    _possibleAppliances this' = _possibleAppliances this /\
    (exists more, _scenarios this' = (_scenarios this ++ more)%list) /\
    (from_catalog this -> from_catalog this').
Proof.
  intros fuel this w this' H. unfold run, bind in H.
  destruct (console_log _ w) as [[] w1].
  exact (run_loop_grows _ _ _ _ H).
Qed.

(** X15. Whatever is typed, when the command loop ends at [exit] the catalog
    is the one it started with, the scenarios it started with are the front
    of the list in their order, and if the appliances of every scenario
    were appliances of the catalog at the start they are at the end. *)
Theorem run_keeps_catalog_and_scenarios :
  forall fuel this w this',
    fst (run rt fuel this w) = Some this' ->
    _possibleAppliances this' = _possibleAppliances this /\
    (exists more, _scenarios this' = (_scenarios this ++ more)%list) /\
    (from_catalog this -> from_catalog this').
Proof.
  exact run_loop_grows_run.
Qed.


(** X17. A command line is read after trimming and lower-casing: two lines
    that are not empty and trim and lower-case to the same text make the
    loop do the same. *)
Theorem run_loop_normalises_command :
  forall fuel this w line line' r,
    stdin w = Some line :: r ->
    line <> "" -> line' <> "" ->
    toLowerCase (trim line) = toLowerCase (trim line') ->
    run_loop rt (S fuel) this w
    = run_loop rt (S fuel) this
        (mkWorld (Some line' :: r) (console w) (clock_reads w) (random_reads w)).
Proof.
  intros fuel this w line line' r Hin Hl Hl' Hn.
  apply String.eqb_neq in Hl, Hl'.
  cbn [run_loop]. unfold bind, prompt.
  cbn [stdin console clock_reads random_reads]. rewrite Hin.
  cbn [falsy]. rewrite Hl, Hl', Hn. reflexivity.
Qed.

End Frame.

Lemma run_keeps_catalog_and_scenarios_witness :
  fst (run Fixture.rt 4 (App_new Fixture.catalog)
         (Fixture.world [Some "create_scenario"; Some "delete_scenario";
                         Some "scenario-1"; Some "exit"]))
  = Some (mkApp Fixture.catalog [Fixture.scenario1]) /\
  _possibleAppliances (mkApp Fixture.catalog [Fixture.scenario1])
  = Fixture.catalog /\
  (exists more, [Fixture.scenario1] = ([] ++ more)%list) /\
  (from_catalog (App_new Fixture.catalog) ->
   from_catalog (mkApp Fixture.catalog [Fixture.scenario1])).
Proof.
  assert (E : fst (run Fixture.rt 4 (App_new Fixture.catalog)
                     (Fixture.world [Some "create_scenario"; Some "delete_scenario";
                                     Some "scenario-1"; Some "exit"]))
              = Some (mkApp Fixture.catalog [Fixture.scenario1]))
    by (vm_compute; reflexivity).
  split; [exact E |].
  exact (run_keeps_catalog_and_scenarios Fixture.rt 4 (App_new Fixture.catalog)
           _ _ E).
Defined.


Lemma run_loop_normalises_command_witness :
  run_loop Fixture.rt 3 (App_new Fixture.catalog)
    (Fixture.world [Some "  Create_Scenario "; Some "exit"])
  = run_loop Fixture.rt 3 (App_new Fixture.catalog)
      (Fixture.world [Some "create_scenario"; Some "exit"]).
Proof.
  apply (run_loop_normalises_command Fixture.rt 2 (App_new Fixture.catalog)
           (Fixture.world [Some "  Create_Scenario "; Some "exit"])
           "  Create_Scenario " "create_scenario" [Some "exit"] eq_refl);
    [discriminate | discriminate | vm_compute; reflexivity].
Defined.

(* ================================================================= *)
(** ** The names that [create_scenario] gives *)

Lemma string_of_nat_injective :
  forall a b, string_of_nat a = string_of_nat b -> a = b.
Proof.
  intros a b H. unfold string_of_nat in H.
  apply (f_equal NilEmpty.uint_of_string) in H.
  rewrite !NilEmpty.usu in H. inversion H as [E].
  apply (f_equal Nat.of_uint) in E.
  rewrite !DecimalNat.Unsigned.of_to in E. exact E.
Qed.

Lemma NoDup_map_injective :
  forall (A B : Type) (f : A -> B) (l : list A),
    (forall a b, f a = f b -> a = b) -> NoDup l -> NoDup (map f l).
Proof.
  intros A B f l Hf H. induction H as [| x l Hx _ IH]; cbn [map];
    constructor; [| exact IH].
  intros Hin. apply in_map_iff in Hin. destruct Hin as (y & Hy & Hin).
  apply Hf in Hy. subst y. contradiction.
Qed.

Lemma scenario_names_NoDup :
  forall n, NoDup (map (fun k => "scenario-" ++ string_of_nat k) (seq 1 n)).
Proof.
  intros n. apply NoDup_map_injective; [| apply seq_NoDup].
  intros a b H. cbn in H. inversion H as [E].
  apply string_of_nat_injective. exact E.
Qed.

(** X18. N calls of [create_scenario] on a new controller give N scenarios
    with N different names, so each of them can be looked up by its name. *)
Theorem createScenario_names_distinct :
  forall rt (N : nat) (possibleAppliances : list Appliance) (w : World),
    NoDup (map s_name
               (_scenarios (fst (times N (createScenario rt)
                                   (App_new possibleAppliances) w)))).
Proof.
  intros rt N possibleAppliances w.
  destruct (times_createScenario rt N (App_new possibleAppliances) w)
    as (_ & Hn & _); [reflexivity | constructor |].
  cbn zeta in Hn. rewrite Hn. apply scenario_names_NoDup.
Qed.

(* ================================================================= *)
(** ** The entry point *)

Section Main.

Context (rt : Runtime).

(** X19. [main] never crashes on a failing load and never starts without a
    catalog: a failure of the loader at any stage is printed as it is and
    the console world is left untouched, with no prompt made; when the
    loader returns a list, the command loop runs on a new controller that
    holds the loaded appliances and no scenario, and what it leaves is what
    [main] leaves; while the read does not settle, [main] waits. *)
Theorem main_outcomes :
  forall fuel w,
    (forall e, main rt fuel w <> Crashed e) /\
    main rt fuel w <> NoCatalog /\
    (forall e w', main rt fuel w = Failed e w' ->
       loadAppliancesFromFile rt "./appliances.json" = Rejected e /\ w' = w) /\
    (forall e, loadAppliancesFromFile rt "./appliances.json" = Rejected e ->
       main rt fuel w = Failed e w) /\
    (forall appliances,
       loadAppliancesFromFile rt "./appliances.json" = Fulfilled appliances ->
       main rt fuel w
       = Started (fst (run rt fuel (mkApp appliances []) w))
                 (snd (run rt fuel (mkApp appliances []) w))) /\
    (loadAppliancesFromFile rt "./appliances.json" = Pending ->
     main rt fuel w = Waiting) /\
    (forall final w', main rt fuel w = Started final w' ->
       exists appliances,
         loadAppliancesFromFile rt "./appliances.json" = Fulfilled appliances /\
         run rt fuel (mkApp appliances []) w = (final, w')).
Proof.
  intros fuel w. unfold main.
  destruct (loadAppliancesFromFile rt "./appliances.json")
    as [appliances | e |]; cbn [tryCatch error data].
  - destruct (run rt fuel (App_new appliances) w) as [final w'] eqn:E.
    split; [intros; discriminate |]. split; [discriminate |].
    split; [intros; discriminate |]. split; [intros; discriminate |].
    split; [| split; [intros; discriminate |]].
    + intros appliances' H. inversion H; subst appliances'.
      change (mkApp appliances []) with (App_new appliances).
      rewrite E. reflexivity.
    + intros final' w'' H. inversion H; subst. exists appliances.
      split; [reflexivity | exact E].
  - split; [intros; discriminate |]. split; [discriminate |].
    split; [| split; [| split; [| split]]].
    + intros e' w' H. inversion H. split; reflexivity.
    + intros e' H. inversion H. reflexivity.
    + intros; discriminate.
    + intros; discriminate.
    + intros; discriminate.
  - split; [intros; discriminate |]. split; [discriminate |].
    split; [intros; discriminate |]. split; [intros; discriminate |].
    split; [intros; discriminate |]. split; [reflexivity |].
    intros; discriminate.
Qed.

(** X20. End to end: when the program ends at [exit], the catalog of the
    controller is the list loaded from [./appliances.json], every appliance
    of it has a trimmed name that is not empty and numbers that are not
    negative, and every scenario holds appliances of that catalog only. *)
Theorem main_exit_state :
  forall fuel w final w',
    main rt fuel w = Started (Some final) w' ->
    loadAppliancesFromFile rt "./appliances.json"
      = Fulfilled (_possibleAppliances final) /\
    Forall (fun a => a_name a <> ""
                     /\ trim (a_name a) = a_name a
                     /\ (0 <= a_powerConsumption a)%Q
                     /\ (0 <= a_embodiedEmissions a)%Q)
           (_possibleAppliances final) /\
    from_catalog final.
Proof.
  intros fuel w final w' H. unfold main in H.
  destruct (loadAppliancesFromFile rt "./appliances.json")
    as [appliances | e |] eqn:L; cbn [tryCatch error data] in H;
    try discriminate.
  destruct (run rt fuel (App_new appliances) w) as [final' w''] eqn:E.
  inversion H; subst; clear H.
  assert (F : fst (run rt fuel (App_new appliances) w) = Some final)
    by (rewrite E; reflexivity).
  destruct (run_loop_grows_run rt fuel (App_new appliances) w final F)
    as (Hc & _ & Hf).
  cbn in Hc. rewrite Hc. split; [reflexivity |]. split.
  - destruct (loadAppliancesFromFile_fulfilled_inv_aux rt _ _ L)
      as (entries & ds & Hacc & ->).
    clear - Hacc. induction Hacc as [| e d entries ds He _ IH]; [constructor |].
    cbn [map]. constructor; [| exact IH].
    destruct He as (props & name & _ & _ & Hname & Ed & _ & Hp & _ & Hem & _).
    unfold toAppliance. cbn. rewrite Ed.
    repeat split; try assumption. apply trim_idempotent.
  - apply Hf. constructor.
Qed.

End Main.

Lemma main_exit_state_witness :
  main Fixture.rt 3 (Fixture.world [Some "create_scenario"; Some "exit"])
  = Started (Some (mkApp Fixture.catalog [Fixture.scenario1]))
            (snd (run Fixture.rt 3 (App_new Fixture.catalog)
                    (Fixture.world [Some "create_scenario"; Some "exit"]))) /\
  loadAppliancesFromFile Fixture.rt "./appliances.json"
    = Fulfilled Fixture.catalog /\
  Forall (fun a => a_name a <> ""
                   /\ trim (a_name a) = a_name a
                   /\ (0 <= a_powerConsumption a)%Q
                   /\ (0 <= a_embodiedEmissions a)%Q)
         Fixture.catalog /\
  from_catalog (mkApp Fixture.catalog [Fixture.scenario1]).
Proof.
  assert (E : main Fixture.rt 3
                (Fixture.world [Some "create_scenario"; Some "exit"])
              = Started (Some (mkApp Fixture.catalog [Fixture.scenario1]))
                        (snd (run Fixture.rt 3 (App_new Fixture.catalog)
                                (Fixture.world [Some "create_scenario";
                                                Some "exit"]))))
    by (vm_compute; reflexivity).
  split; [exact E |].
  exact (main_exit_state Fixture.rt 3 _ _ _ E).
Defined.
